(** * AI Parking API: a shallow embedding of [main.py] and [schemas.py]

    The service keeps three MongoDB collections ([parkinglot], [parkingspot],
    [booking]) and exposes handlers that seed demo data, recommend a spot,
    and open and close bookings.  Handlers are embedded as computations in a
    state-and-exception monad over the service environment; Python floats are
    Rocq's primitive binary64 floats, so arithmetic and comparisons are the
    IEEE 754 ones the interpreter performs. *)

From Stdlib Require Import ZArith NArith List String Ascii Bool Lia DecimalString.
From Stdlib Require Import Floats.
Import ListNotations.

Set Warnings "-inexact-float".
Set Implicit Arguments.

Open Scope Z_scope.

(* ================================================================== *)
(** * Python values used by the handlers *)

(** ** Floats *)

(** [float(n)] for a Python integer: the nearest binary64, ties to even. *)
Definition float_of_Z (z : Z) : float :=
  SF2Prim (binary_normalize prec emax z 0 false).

Definition Z_to_SF (z : Z) : spec_float :=
  match z with
  | Z0 => S754_zero false
  | Zpos p => S754_finite false p 0
  | Zneg p => S754_finite true p 0
  end.

(** [a / b] on Python integers: the correctly rounded quotient. *)
Definition int_truediv (a b : Z) : float :=
  SF2Prim (SFdiv prec emax (Z_to_SF a) (Z_to_SF b)).

(** Integer nearest to [a / b] for [0 <= a], [0 < b], halves going to the
    even neighbour. *)
Definition div_half_even (a b : Z) : Z :=
  let q := a / b in
  let r := a mod b in
  match (2 * r ?= b) with
  | Lt => q
  | Gt => q + 1
  | Eq => if Z.even q then q else q + 1
  end.

(** The builtin [round(x, ndigits)] on a float, for [ndigits >= 0]: the exact
    binary value of [x] is rounded to [ndigits] decimals (halves to even) and
    the decimal obtained is converted back to the nearest float; NaN,
    infinities and zeros are returned unchanged. *)
Definition round (x : float) (ndigits : nat) : float :=
  match Prim2SF x with
  | S754_finite s m e =>
      let scale := 10 ^ Z.of_nat ndigits in
      let n := if 0 <=? e then Zpos m * 2 ^ e * scale
               else div_half_even (Zpos m * scale) (2 ^ (- e)) in
      let r := int_truediv n scale in
      if s then (- r)%float else r
  | _ => x
  end.

(** ** datetime and timedelta *)

(** A UTC [datetime] is its number of microseconds since the epoch; a
    [timedelta] is a number of microseconds. *)
Definition datetime := Z.
Definition timedelta := Z.

Definition datetime_sub (t1 t0 : datetime) : timedelta := t1 - t0.

Definition total_seconds (d : timedelta) : float := int_truediv d (10 ^ 6).

(** ** Strings *)

(** [str(i)] for an integer. *)
Definition str_int (i : Z) : string := NilZero.string_of_int (Z.to_int i).

(** Truth value of an [Optional[str]]: [None] and the empty string are false. *)
Definition truthy (v : option string) : bool :=
  match v with
  | None => false
  | Some s => negb (s =? "")%string
  end.

(** [range(lo, hi)]. *)
Definition range (lo hi : Z) : list Z :=
  map (fun k => lo + Z.of_nat k) (seq 0 (Z.to_nat (hi - lo))).

(* ================================================================== *)
(** * HTTP outcomes *)

(** A handler either returns its response model or raises [HTTPException];
    any other exception reaches the framework, which answers 500. *)
Inductive result (A : Type) : Type :=
| Ok (a : A)
| HTTPException (status_code : Z) (detail : string).

Arguments Ok {A} a.
Arguments HTTPException {A} status_code detail.

Definition unhandled {A : Type} : result A :=
  HTTPException 500 "Internal Server Error".

(** A computation that may raise an exception no handler catches: [None]
    stands for the raise. *)
Definition obind {A B : Type} (o : option A) (k : A -> option B) : option B :=
  match o with
  | Some a => k a
  | None => None
  end.

Declare Scope raising_scope.
Delimit Scope raising_scope with raising.
Notation "x <- o ;; k" := (obind o (fun x => k))
  (at level 61, o at next level, right associativity) : raising_scope.

Definition is_ok {A : Type} (r : result A) : bool :=
  match r with Ok _ => true | HTTPException _ _ => false end.

Definition status_of {A : Type} (r : result A) : Z :=
  match r with Ok _ => 200 | HTTPException c _ => c end.

(* ================================================================== *)
(** * bson.ObjectId *)

Module ObjectId.

(** The bytes an id holds.  A twelve-byte id, the only kind the store
    assigns, is its bytes read as one number, below [2 ^ 96].  An id of
    [k < 12] bytes of value [v], which [ObjectId(s)] builds when [s] holds
    whitespace, is numbered [2 ^ 96 + 256 ^ k + v]: two ids are equal exactly
    when they hold the same bytes. *)
Definition t := N.

Definition eqb : t -> t -> bool := N.eqb.

Definition of_bytes (k : nat) (v : N) : t :=
  if (k =? 12)%nat then v else (2 ^ 96 + 256 ^ N.of_nat k + v)%N.

Definition hex_value (c : ascii) : option N :=
  let n := N_of_ascii c in
  if ((48 <=? n) && (n <=? 57))%N then Some (n - 48)%N
  else if ((97 <=? n) && (n <=? 102))%N then Some (n - 87)%N
  else if ((65 <=? n) && (n <=? 70))%N then Some (n - 55)%N
  else None.

(** ASCII whitespace: space, tab, line feed, vertical tab, form feed and
    carriage return. *)
Definition is_space (c : ascii) : bool :=
  let n := N_of_ascii c in
  ((n =? 32) || ((9 <=? n) && (n <=? 13)))%N.

(** [bytes.fromhex(s)], with the bytes read so far as their number [k] and
    their value [v]: whitespace is skipped before each byte and after the last
    one, and a byte is two adjacent hexadecimal digits; anything else is a
    [ValueError] (here [None]). *)
Fixpoint fromhex (s : string) (k : nat) (v : N) : option (nat * N) :=
  match s with
  | EmptyString => Some (k, v)
  | String c s' =>
      if is_space c then fromhex s' k v
      else
        match hex_value c, s' with
        | Some top, String c' s'' =>
            match hex_value c' with
            | Some bot => fromhex s'' (S k) (256 * v + 16 * top + bot)%N
            | None => None
            end
        | _, _ => None
        end
  end.

(** [ObjectId(s)] for a string: [s] has twenty-four characters and
    [bytes.fromhex(s)] succeeds, or [InvalidId] (here [None]). *)
Definition of_str (s : string) : option t :=
  if (String.length s =? 24)%nat
  then match fromhex s 0 0%N with
       | Some (k, v) => Some (of_bytes k v)
       | None => None
       end
  else None.

Definition hex_char (d : N) : ascii :=
  if (d <? 10)%N then ascii_of_N (48 + d) else ascii_of_N (87 + d).

Fixpoint hex_digits (n : nat) (x : N) (acc : string) : string :=
  match n with
  | O => acc
  | S n' => hex_digits n' (x / 16)%N (String (hex_char (x mod 16)%N) acc)
  end.

(** [str(oid)]: two lowercase hexadecimal digits for each byte of the id,
    twenty-four for a twelve-byte id. *)
Definition str (o : t) : string :=
  if (o <? 2 ^ 96)%N then hex_digits 24 o ""
  else
    let w := (o - 2 ^ 96)%N in
    let k := (N.log2 w / 8)%N in
    hex_digits (2 * N.to_nat k) (w - 256 ^ k)%N "".

End ObjectId.

Definition ObjectId (s : string) : option ObjectId.t := ObjectId.of_str s.

(* ================================================================== *)
(** * schemas.py *)

Module ParkingLot.

Record t : Type := Build
  { name : string;
    latitude : float;
    longitude : float;
    address : option string;
    price_per_hour : float;
    total_spots : Z }.

(** Field constraints: [ge]/[le] bounds of the model. *)
Definition valid (l : t) : bool :=
  ((-90 <=? latitude l)%float && (latitude l <=? 90)%float
   && (-180 <=? longitude l)%float && (longitude l <=? 180)%float
   && (0 <=? price_per_hour l)%float
   && (1 <=? total_spots l))%bool.

Definition new (l : t) : result t :=
  if valid l then Ok l else unhandled.

End ParkingLot.

Module ParkingSpot.

Record t : Type := Build
  { lot_id : string;
    spot_number : string;
    vehicle_type : string;
    is_occupied : bool }.

(** [Literal["car", "motorcycle", "ev", "accessible"]]. *)
Definition vehicle_types : list string :=
  ["car"; "motorcycle"; "ev"; "accessible"]%string.

Definition valid (s : t) : bool :=
  existsb (String.eqb (vehicle_type s)) vehicle_types.

Definition new (s : t) : result t :=
  if valid s then Ok s else unhandled.

Definition set_is_occupied (b : bool) (s : t) : t :=
  {| lot_id := lot_id s;
     spot_number := spot_number s;
     vehicle_type := vehicle_type s;
     is_occupied := b |}.

End ParkingSpot.

Module Booking.

Record t : Type := Build
  { lot_id : string;
    spot_id : string;
    vehicle_plate : string;
    user_name : option string;
    start_time : option datetime;
    end_time : option datetime;
    status : string }.

(** [Literal["active", "completed", "cancelled"]]. *)
Definition statuses : list string :=
  ["active"; "completed"; "cancelled"]%string.

Definition valid (b : t) : bool :=
  existsb (String.eqb (status b)) statuses.

Definition new (b : t) : result t :=
  if valid b then Ok b else unhandled.

(** [{"$set": {"status": s, "end_time": e}}]. *)
Definition set_status_end_time (s : string) (e : datetime) (b : t) : t :=
  {| lot_id := lot_id b;
     spot_id := spot_id b;
     vehicle_plate := vehicle_plate b;
     user_name := user_name b;
     start_time := start_time b;
     end_time := Some e;
     status := s |}.

End Booking.

(* ================================================================== *)
(** * The document store *)

(** Modelled from the spec: [database.py] ([db], [create_document]) is not
    part of the sources.  Following the spec's Store Adapter, a collection
    holds documents under store-assigned identifiers, enumerated in insertion
    order; [find] filters, [find_one] returns the first match, [update_one]
    sets fields of the first match, and [create_document] inserts a validated
    record under a fresh identifier and returns it as a string. *)

Record document (A : Type) : Type := Doc
  { _id : ObjectId.t;
    fields : A }.

Record Store : Type := Build_Store
  { parkinglot_docs : list (document ParkingLot.t);
    parkingspot_docs : list (document ParkingSpot.t);
    booking_docs : list (document Booking.t);
    next_id : ObjectId.t }.

Definition empty_store : Store :=
  {| parkinglot_docs := [];
     parkingspot_docs := [];
     booking_docs := [];
     next_id := 0%N |}.

Inductive collection : Type -> Type :=
| parkinglot : collection ParkingLot.t
| parkingspot : collection ParkingSpot.t
| booking : collection Booking.t.

Definition docs {A : Type} (c : collection A) (st : Store) : list (document A) :=
  match c in collection T return list (document T) with
  | parkinglot => parkinglot_docs st
  | parkingspot => parkingspot_docs st
  | booking => booking_docs st
  end.

Definition set_docs {A : Type} (c : collection A) : list (document A) -> Store -> Store :=
  match c in collection T return list (document T) -> Store -> Store with
  | parkinglot => fun l st =>
      {| parkinglot_docs := l;
         parkingspot_docs := parkingspot_docs st;
         booking_docs := booking_docs st;
         next_id := next_id st |}
  | parkingspot => fun l st =>
      {| parkinglot_docs := parkinglot_docs st;
         parkingspot_docs := l;
         booking_docs := booking_docs st;
         next_id := next_id st |}
  | booking => fun l st =>
      {| parkinglot_docs := parkinglot_docs st;
         parkingspot_docs := parkingspot_docs st;
         booking_docs := l;
         next_id := next_id st |}
  end.

Definition bump_id (st : Store) : Store :=
  {| parkinglot_docs := parkinglot_docs st;
     parkingspot_docs := parkingspot_docs st;
     booking_docs := booking_docs st;
     next_id := N.succ (next_id st) |}.

Definition has_id {A : Type} (o : ObjectId.t) (d : document A) : bool :=
  ObjectId.eqb (_id d) o.

Fixpoint update_first {A : Type} (o : ObjectId.t) (f : A -> A)
  (l : list (document A)) : list (document A) :=
  match l with
  | [] => []
  | d :: l' =>
      if has_id o d then Doc (_id d) (f (fields d)) :: l'
      else d :: update_first o f l'
  end.

(** The service environment: the module-level [db] handle ([None] when the
    database is not configured) and whether [from bson import ObjectId]
    succeeded. *)
Record Env : Type := Build_Env
  { db : option Store;
    ObjectId_imported : bool }.

Definition set_db (st : Store) (env : Env) : Env :=
  {| db := Some st; ObjectId_imported := ObjectId_imported env |}.

(** Handlers: state is the environment; an exception keeps the writes made
    before it (the store has no transactions). *)
Definition M (A : Type) : Type := Env -> result A * Env.

Definition ret {A : Type} (a : A) : M A := fun env => (Ok a, env).

Definition raise {A : Type} (status_code : Z) (detail : string) : M A :=
  fun env => (HTTPException status_code detail, env).

Definition bind {A B : Type} (m : M A) (k : A -> M B) : M B :=
  fun env =>
    match m env with
    | (Ok a, env') => k a env'
    | (HTTPException c d, env') => (HTTPException c d, env')
    end.

Definition lift {A : Type} (r : result A) : M A := fun env => (r, env).

(** An exception the handler does not catch is answered 500. *)
Definition lift_raising {A : Type} (o : option A) : M A :=
  fun env =>
    match o with
    | Some a => (Ok a, env)
    | None => (unhandled, env)
    end.

Declare Scope monad_scope.
Delimit Scope monad_scope with monad.
Notation "x <- m ;; k" := (bind m (fun x => k))
  (at level 61, m at next level, right associativity) : monad_scope.
Notation "m ;; k" := (bind m (fun _ => k))
  (at level 61, right associativity) : monad_scope.

Open Scope monad_scope.

(** [if db is None: raise HTTPException(500, "Database not configured")]. *)
Definition require_db : M unit :=
  fun env =>
    match db env with
    | None => (HTTPException 500 "Database not configured", env)
    | Some _ => (Ok tt, env)
    end.

(** [if ObjectId is None: raise HTTPException(500, "ObjectId not available")]. *)
Definition require_ObjectId : M unit :=
  fun env =>
    if ObjectId_imported env then (Ok tt, env)
    else (HTTPException 500 "ObjectId not available", env).

Definition find {A : Type} (c : collection A) (query : document A -> bool)
  : M (list (document A)) :=
  fun env =>
    match db env with
    | None => (unhandled, env)
    | Some st => (Ok (filter query (docs c st)), env)
    end.

Definition find_one {A : Type} (c : collection A) (o : ObjectId.t)
  : M (option (document A)) :=
  fun env =>
    match db env with
    | None => (unhandled, env)
    | Some st => (Ok (List.find (has_id o) (docs c st)), env)
    end.

Definition update_one {A : Type} (c : collection A) (o : ObjectId.t) (f : A -> A)
  : M unit :=
  fun env =>
    match db env with
    | None => (unhandled, env)
    | Some st => (Ok tt, set_db (set_docs c (update_first o f (docs c st)) st) env)
    end.

Definition create_document {A : Type} (c : collection A) (data : A) : M string :=
  fun env =>
    match db env with
    | None => (unhandled, env)
    | Some st =>
        let o := next_id st in
        (Ok (ObjectId.str o),
         set_db (bump_id (set_docs c (docs c st ++ [Doc o data]) st)) env)
    end.

Fixpoint for_each {A : Type} (l : list A) (body : A -> M unit) : M unit :=
  match l with
  | [] => ret tt
  | x :: l' => body x ;; for_each l' body
  end.

(* ================================================================== *)
(** * main.py: request and response models *)

Module SeedResponse.
Record t : Type := Build
  { status : string;
    seeded : bool;
    lot_id : option string }.
End SeedResponse.

Module RecommendationRequest.
Record t : Type := Build
  { lat : float;
    lng : float;
    vehicle_type : option string }.
End RecommendationRequest.

Module RecommendationResponse.
Record t : Type := Build
  { lot_id : string;
    lot_name : string;
    spot_id : option string;
    spot_number : option string;
    reason : string }.
End RecommendationResponse.

Module StartBookingRequest.
Record t : Type := Build
  { lot_id : string;
    spot_id : string;
    vehicle_plate : string;
    user_name : option string }.
End StartBookingRequest.

Module BookingResponse.
Record t : Type := Build
  { booking_id : string;
    status : string }.
End BookingResponse.

Module EndBookingRequest.
Record t : Type := Build
  { booking_id : string }.
End EndBookingRequest.

Module EndBookingResult.
Record t : Type := Build
  { duration_minutes : float;
    amount_due : float;
    currency : string }.
End EndBookingResult.

(* ================================================================== *)
(** * main.py: seed_demo_data *)

Definition demo_lot : ParkingLot.t :=
  {| ParkingLot.name := "Downtown Central";
     ParkingLot.latitude := 37.7749;
     ParkingLot.longitude := -122.4194;
     ParkingLot.address := Some "123 Market St, San Francisco, CA"%string;
     ParkingLot.price_per_hour := 5.0;
     ParkingLot.total_spots := 12 |}.

Definition demo_vtype (i : Z) : string :=
  let vtype := "car"%string in
  let vtype := if (i =? 3) || (i =? 7) then "ev"%string else vtype in
  let vtype := if i =? 5 then "accessible"%string else vtype in
  vtype.

Definition seed_demo_data : M SeedResponse.t :=
  require_db ;;
  existing_lots <- find parkinglot (fun _ => true) ;;
  match existing_lots with
  | _ :: _ => ret (SeedResponse.Build "ok" false None)
  | [] =>
      lot <- lift (ParkingLot.new demo_lot) ;;
      lot_id <- create_document parkinglot lot ;;
      for_each (range 1 13) (fun i =>
        spot <- lift (ParkingSpot.new
                        (ParkingSpot.Build lot_id (str_int i) (demo_vtype i) false)) ;;
        _ <- create_document parkingspot spot ;;
        ret tt) ;;
      ret (SeedResponse.Build "ok" true (Some lot_id))
  end.

(* ================================================================== *)
(** * main.py: haversine and recommend_parking *)

(** [math.sin], [math.cos], [math.atan2] and the float power [x ** y], as
    the platform's C library computes them.  Each may raise ([ValueError],
    [OverflowError]), here [None]; the handler does not catch it. *)
Record Libm : Type := Build_Libm
  { sin : float -> option float;
    cos : float -> option float;
    atan2 : float -> float -> option float;
    pow : float -> float -> option float }.

(** [math.radians(x)] multiplies by the constant pi / 180. *)
Definition radians (x : float) : float := (x * 0.017453292519943295)%float.

(** [math.sqrt(x)]: IEEE square root, [ValueError] on a negative argument. *)
Definition math_sqrt (x : float) : option float :=
  if (x <? 0)%float then None else Some (sqrt x).

Section Recommend.

Variable libm : Libm.

Definition haversine (lat1 lon1 lat2 lon2 : float) : option float :=
  (let R := 6371.0%float in
   let dlat := radians (lat2 - lat1) in
   let dlon := radians (lon2 - lon1) in
   s1 <- sin libm (dlat / 2) ;;
   p1 <- pow libm s1 2 ;;
   c1 <- cos libm (radians lat1) ;;
   c2 <- cos libm (radians lat2) ;;
   s2 <- sin libm (dlon / 2) ;;
   p2 <- pow libm s2 2 ;;
   let a := (p1 + c1 * c2 * p2)%float in
   q1 <- math_sqrt a ;;
   q2 <- math_sqrt (1 - a) ;;
   t <- atan2 libm q1 q2 ;;
   let c := (2 * t)%float in
   Some (R * c)%float)%raising.

(** The query [{"lot_id": lot_id, "is_occupied": False}]. *)
Definition free_in_lot (lot_id : string) (s : document ParkingSpot.t) : bool :=
  (ParkingSpot.lot_id (fields s) =? lot_id)%string
  && negb (ParkingSpot.is_occupied (fields s)).

(** [s.get("vehicle_type") == req.vehicle_type]. *)
Definition type_matches (v : option string) (s : document ParkingSpot.t) : bool :=
  match v with
  | Some t => (ParkingSpot.vehicle_type (fields s) =? t)%string
  | None => false
  end.

Definition scan_state : Type :=
  option (document ParkingLot.t) * float * option (document ParkingSpot.t).

(** The body of [for lot in lots], with [best], [best_score] and
    [chosen_spot] threaded through. *)
Fixpoint recommend_scan (req : RecommendationRequest.t)
  (lots : list (document ParkingLot.t))
  (best : option (document ParkingLot.t)) (best_score : float)
  (chosen_spot : option (document ParkingSpot.t)) : M scan_state :=
  match lots with
  | [] => ret (best, best_score, chosen_spot)
  | lot :: rest =>
      let lot_id := ObjectId.str (_id lot) in
      spots <- find parkingspot (free_in_lot lot_id) ;;
      let spots :=
        if truthy (RecommendationRequest.vehicle_type req)
        then filter (type_matches (RecommendationRequest.vehicle_type req)) spots
        else spots in
      match spots with
      | [] => recommend_scan req rest best best_score chosen_spot
      | first :: _ =>
          dist <- lift_raising (haversine (RecommendationRequest.lat req)
                            (RecommendationRequest.lng req)
                            (ParkingLot.latitude (fields lot))
                            (ParkingLot.longitude (fields lot))) ;;
          let score := (dist - 0.05 * float_of_Z (Z.of_nat (List.length spots)))%float in
          if (score <? best_score)%float
          then recommend_scan req rest (Some lot) score (Some first)
          else recommend_scan req rest best best_score chosen_spot
      end
  end.

Definition recommend_parking (req : RecommendationRequest.t)
  : M RecommendationResponse.t :=
  require_db ;;
  lots <- find parkinglot (fun _ => true) ;;
  match lots with
  | [] => raise 404 "No parking lots available. Seed data first."
  | _ :: _ =>
      final <- recommend_scan req lots None infinity None ;;
      let '(best, _, chosen_spot) := final in
      match best with
      | None => raise 404 "No suitable spots found"
      | Some best =>
          ret {| RecommendationResponse.lot_id := ObjectId.str (_id best);
                 RecommendationResponse.lot_name := ParkingLot.name (fields best);
                 RecommendationResponse.spot_id :=
                   option_map (fun s => ObjectId.str (_id s)) chosen_spot;
                 RecommendationResponse.spot_number :=
                   option_map (fun s => ParkingSpot.spot_number (fields s)) chosen_spot;
                 RecommendationResponse.reason :=
                   "Closest lot with available matching spots" |}
      end
  end.

End Recommend.

(* ================================================================== *)
(** * main.py: start_booking *)

Definition start_booking (req : StartBookingRequest.t) (now : datetime)
  : M BookingResponse.t :=
  require_db ;;
  require_ObjectId ;;
  (* Verify lot exists *)
  match ObjectId (StartBookingRequest.lot_id req) with
  | None => raise 400 "Invalid lot id"
  | Some lot_oid =>
      _ <- find_one parkinglot lot_oid ;;
      (* Verify spot is free *)
      match ObjectId (StartBookingRequest.spot_id req) with
      | None => raise 400 "Invalid spot id"
      | Some spot_oid =>
          spot <- find_one parkingspot spot_oid ;;
          match spot with
          | None => raise 404 "Spot not found"
          | Some spot =>
              if ParkingSpot.is_occupied (fields spot)
              then raise 409 "Spot already occupied"
              else
                (* Mark occupied *)
                update_one parkingspot (_id spot) (ParkingSpot.set_is_occupied true) ;;
                b <- lift (Booking.new
                       {| Booking.lot_id := StartBookingRequest.lot_id req;
                          Booking.spot_id := StartBookingRequest.spot_id req;
                          Booking.vehicle_plate := StartBookingRequest.vehicle_plate req;
                          Booking.user_name := StartBookingRequest.user_name req;
                          Booking.start_time := Some now;
                          Booking.end_time := None;
                          Booking.status := "active" |}) ;;
                booking_id <- create_document booking b ;;
                ret (BookingResponse.Build booking_id "active")
          end
      end
  end.

(* ================================================================== *)
(** * main.py: end_booking *)

(** The [# Price] block: the lot is looked up only when [lot_id] is a
    non-empty string, and an invalid id leaves [lot = None]. *)
Definition booking_lot (b : Booking.t) : M (option (document ParkingLot.t)) :=
  if (Booking.lot_id b =? "")%string then ret None
  else match ObjectId (Booking.lot_id b) with
       | None => ret None
       | Some o => find_one parkinglot o
       end.

Definition lot_price (lot : option (document ParkingLot.t)) : float :=
  match lot with
  | Some l => ParkingLot.price_per_hour (fields l)
  | None => 5.0%float
  end.

(** [now0] is the clock read by [b.get("start_time") or datetime.now(...)]
    (used only when the booking has no start time), [now] the one read for
    [end]. *)
Definition end_booking (req : EndBookingRequest.t) (now0 now : datetime)
  : M EndBookingResult.t :=
  require_db ;;
  require_ObjectId ;;
  match ObjectId (EndBookingRequest.booking_id req) with
  | None => raise 400 "Invalid booking id"
  | Some booking_oid =>
      b <- find_one booking booking_oid ;;
      match b with
      | None => raise 404 "Booking not found"
      | Some b =>
          if negb (Booking.status (fields b) =? "active")%string
          then raise 409 "Booking already closed"
          else
            (* Price *)
            lot <- booking_lot (fields b) ;;
            let price_per_hour := lot_price lot in
            let start := match Booking.start_time (fields b) with
                         | Some t => t
                         | None => now0
                         end in
            let end_ := now in
            let minutes := (total_seconds (datetime_sub end_ start) / 60.0)%float in
            let cost := round ((minutes / 60.0) * price_per_hour)%float 2 in
            (* Close booking *)
            update_one booking (_id b) (Booking.set_status_end_time "completed" end_) ;;
            (* Free spot *)
            match ObjectId (Booking.spot_id (fields b)) with
            | Some spot_oid =>
                update_one parkingspot spot_oid (ParkingSpot.set_is_occupied false)
            | None => ret tt
            end ;;
            ret {| EndBookingResult.duration_minutes := minutes;
                   EndBookingResult.amount_due := cost;
                   EndBookingResult.currency := "USD" |}
      end
  end.

(* ================================================================== *)
(** * main.py: list_lots *)

Module LotWithAvailability.
Record t : Type := Build
  { id : string;
    name : string;
    address : option string;
    latitude : float;
    longitude : float;
    price_per_hour : float;
    total_spots : Z;
    available_spots : Z }.
End LotWithAvailability.

(** Modelled from the spec: the store's [count(collection, filter)], the
    number of documents the filter matches. *)
Definition count_documents {A : Type} (c : collection A) (query : document A -> bool)
  : M Z :=
  fun env =>
    match db env with
    | None => (unhandled, env)
    | Some st => (Ok (Z.of_nat (List.length (filter query (docs c st)))), env)
    end.

(** The query [{"lot_id": lot_id, "is_occupied": True}]. *)
Definition occupied_in_lot (lot_id : string) (s : document ParkingSpot.t) : bool :=
  (ParkingSpot.lot_id (fields s) =? lot_id)%string
  && ParkingSpot.is_occupied (fields s).

(** The body of [for lot in lots], with [results] threaded through. *)
Fixpoint list_lots_loop (lots : list (document ParkingLot.t))
  (results : list LotWithAvailability.t) : M (list LotWithAvailability.t) :=
  match lots with
  | [] => ret results
  | lot :: rest =>
      let lot_id := ObjectId.str (_id lot) in
      let total := ParkingLot.total_spots (fields lot) in
      occupied <- count_documents parkingspot (occupied_in_lot lot_id) ;;
      let available := Z.max (total - occupied) 0 in
      list_lots_loop rest
        (results ++
         [{| LotWithAvailability.id := lot_id;
             LotWithAvailability.name := ParkingLot.name (fields lot);
             LotWithAvailability.address := ParkingLot.address (fields lot);
             LotWithAvailability.latitude := ParkingLot.latitude (fields lot);
             LotWithAvailability.longitude := ParkingLot.longitude (fields lot);
             LotWithAvailability.price_per_hour :=
               ParkingLot.price_per_hour (fields lot);
             LotWithAvailability.total_spots := total;
             LotWithAvailability.available_spots := available |}])
  end.

Definition list_lots : M (list LotWithAvailability.t) :=
  require_db ;;
  lots <- find parkinglot (fun _ => true) ;;
  list_lots_loop lots [].

(* ================================================================== *)
(** * Named outcomes of the specification *)

Definition NoLotsAvailable {A : Type} : result A :=
  HTTPException 404 "No parking lots available. Seed data first.".
Definition NoSuitableSpot {A : Type} : result A :=
  HTTPException 404 "No suitable spots found".
Definition InvalidLot {A : Type} : result A :=
  HTTPException 400 "Invalid lot id".
Definition InvalidSpot {A : Type} : result A :=
  HTTPException 400 "Invalid spot id".
Definition SpotNotFound {A : Type} : result A :=
  HTTPException 404 "Spot not found".
Definition SpotConflict {A : Type} : result A :=
  HTTPException 409 "Spot already occupied".
Definition AlreadyClosed {A : Type} : result A :=
  HTTPException 409 "Booking already closed".

(* ================================================================== *)
(** * Sequential executions *)

(** One request to a state-changing endpoint, with the clock readings the
    handler makes. *)
Inductive request : Type :=
| Seed
| Start (req : StartBookingRequest.t) (now : datetime)
| End_ (req : EndBookingRequest.t) (now0 now : datetime).

Definition handle (r : request) (env : Env) : Env :=
  match r with
  | Seed => snd (seed_demo_data env)
  | Start req now => snd (start_booking req now env)
  | End_ req now0 now => snd (end_booking req now0 now env)
  end.

Definition run (rs : list request) (env : Env) : Env :=
  fold_left (fun e r => handle r e) rs env.

Definition fresh_env : Env :=
  {| db := Some empty_store; ObjectId_imported := true |}.

(** The states the service reaches from an empty store. *)
Definition reachable (env : Env) : Prop :=
  exists rs, run rs fresh_env = env.

(** The spots [seed_demo_data] inserts for lot id [lot_id], numbered from
    [1], under consecutive identifiers from [o]. *)
Fixpoint demo_spots (lot_id : string) (o : ObjectId.t) (ns : list Z)
  : list (document ParkingSpot.t) :=
  match ns with
  | [] => []
  | i :: ns' =>
      Doc o (ParkingSpot.Build lot_id (str_int i) (demo_vtype i) false)
      :: demo_spots lot_id (N.succ o) ns'
  end.

(* ================================================================== *)
(** * Sample data *)

(** A stand-in for the C library that is enough to run the examples: the
    small-angle approximations of the trigonometric functions and the exact
    square.  Every statement about [recommend_parking] below holds for an
    arbitrary [Libm]. *)
Definition small_angle_libm : Libm :=
  {| sin := fun x => Some x;
     cos := fun _ => Some 1%float;
     atan2 := fun y x => Some (y / x)%float;
     pow := fun x _ => Some (x * x)%float |}.

(** The store after [POST /seed] on an empty database: lot [0], spots
    [1] to [12]. *)
Definition demo_env : Env := snd (seed_demo_data fresh_env).

Definition demo_lot_id : string := "000000000000000000000000".
Definition accessible_spot_id : string := "000000000000000000000005".
Definition absent_lot_id : string := "ffffffffffffffffffffffff".

Definition start_accessible : StartBookingRequest.t :=
  {| StartBookingRequest.lot_id := demo_lot_id;
     StartBookingRequest.spot_id := accessible_spot_id;
     StartBookingRequest.vehicle_plate := "7ABC123";
     StartBookingRequest.user_name := Some "Ada"%string |}.

Definition noon : datetime := 1700000000000000.
Definition one_hour : timedelta := 3600000000.

(** The store after booking the accessible spot at [noon]: booking [13]. *)
Definition booked_env : Env := snd (start_booking start_accessible noon demo_env).

Definition demo_store : Store :=
  {| parkinglot_docs := [Doc 0%N demo_lot];
     parkingspot_docs := demo_spots demo_lot_id 1%N (range 1 13);
     booking_docs := [];
     next_id := 13%N |}.

Definition booked_store : Store :=
  {| parkinglot_docs := [Doc 0%N demo_lot];
     parkingspot_docs :=
       update_first 5%N (ParkingSpot.set_is_occupied true)
         (demo_spots demo_lot_id 1%N (range 1 13));
     booking_docs :=
       [Doc 13%N
          {| Booking.lot_id := demo_lot_id;
             Booking.spot_id := accessible_spot_id;
             Booking.vehicle_plate := "7ABC123";
             Booking.user_name := Some "Ada"%string;
             Booking.start_time := Some noon;
             Booking.end_time := None;
             Booking.status := "active" |}];
     next_id := 14%N |}.

Definition end_first : EndBookingRequest.t :=
  {| EndBookingRequest.booking_id := "00000000000000000000000d" |}.

(** The same request with a lot id that is not an ObjectId. *)
Definition start_bad_lot : StartBookingRequest.t :=
  {| StartBookingRequest.lot_id := "downtown";
     StartBookingRequest.spot_id := accessible_spot_id;
     StartBookingRequest.vehicle_plate := "7ABC123";
     StartBookingRequest.user_name := None |}.

(** The same request with a well-formed id that no lot carries. *)
Definition start_absent_lot : StartBookingRequest.t :=
  {| StartBookingRequest.lot_id := absent_lot_id;
     StartBookingRequest.spot_id := accessible_spot_id;
     StartBookingRequest.vehicle_plate := "7ABC123";
     StartBookingRequest.user_name := None |}.

(** A request whose latitude is not a number. *)
Definition nan_request : RecommendationRequest.t :=
  {| RecommendationRequest.lat := nan;
     RecommendationRequest.lng := -122.41;
     RecommendationRequest.vehicle_type := None |}.

(** A requester a few blocks from the demo lot. *)
Definition near_downtown (v : option string) : RecommendationRequest.t :=
  {| RecommendationRequest.lat := 37.78;
     RecommendationRequest.lng := -122.41;
     RecommendationRequest.vehicle_type := v |}.

(** The scenario of the specification: with both electric spots booked, a
    request for "ev" finds no suitable spot while an unfiltered one is still
    served; and a booking ended at once is billed nothing. *)
Definition start_ev (spot_id : string) : StartBookingRequest.t :=
  {| StartBookingRequest.lot_id := demo_lot_id;
     StartBookingRequest.spot_id := spot_id;
     StartBookingRequest.vehicle_plate := "8EV4567";
     StartBookingRequest.user_name := None |}.

Definition ev_full_env : Env :=
  run [Start (start_ev "000000000000000000000003") noon;
       Start (start_ev "000000000000000000000007") noon] demo_env.

(** An id written byte by byte with blanks between the bytes: twenty-four
    characters, which [bytes.fromhex] reads as the eight bytes [00 .. 05]. *)
Definition spaced_id : string := "00 00 00 00 00 00 00 05 ".

Definition start_spaced_lot : StartBookingRequest.t :=
  {| StartBookingRequest.lot_id := spaced_id;
     StartBookingRequest.spot_id := accessible_spot_id;
     StartBookingRequest.vehicle_plate := "7ABC123";
     StartBookingRequest.user_name := None |}.

Definition start_spaced_spot : StartBookingRequest.t :=
  {| StartBookingRequest.lot_id := demo_lot_id;
     StartBookingRequest.spot_id := spaced_id;
     StartBookingRequest.vehicle_plate := "7ABC123";
     StartBookingRequest.user_name := None |}.

(** The store after booking the accessible spot under the spaced lot id. *)
Definition spaced_env : Env := snd (start_booking start_spaced_lot noon demo_env).

(** A table of arguments and values; it is silent ([None]) elsewhere. *)
Fixpoint tabulated (tab : list (float * float)) (x : float) : option float :=
  match tab with
  | [] => None
  | (a, v) :: tab' =>
      if PrimFloat.Leibniz.eqb x a then Some v else tabulated tab' x
  end.

Fixpoint tabulated2 (tab : list (float * float * float)) (y x : float)
  : option float :=
  match tab with
  | [] => None
  | (a, b, v) :: tab' =>
      if PrimFloat.Leibniz.eqb y a && PrimFloat.Leibniz.eqb x b then Some v
      else tabulated2 tab' y x
  end.

(** The C library at the arguments of the city example below: the values
    that [math.sin], [math.cos], [math.atan2] and [x ** 2] return there with
    glibc on x86-64. *)
Definition sample_libm : Libm :=
  {| sin := tabulated
       [ (-0x1.7557af099b64dp-15, -0x1.7557af078a08ap-15);
         (-0x1.580f8d3b0cf58p-14, -0x1.580f8d3493af8p-14);
         (0x1.be8c038e00990p-13, 0x1.be8c035563deep-13);
         (0x1.3d862e97dbbcfp-10, 0x1.3d8629813c038p-10);
         (0, 0) ]%float;
     cos := tabulated
       [ (0x1.519af64713762p-1, 0x1.94ab3bd12f758p-1);
         (0x1.518f4b899b294p-1, 0x1.94b2617b74a5ep-1);
         (0x1.51d2c7c785363p-1, 0x1.94890737ccc0bp-1) ]%float;
     atan2 := tabulated2
       [ (0x1.49d9261a97facp-14, 0x1.ffffffe570024p-1, 0x1.49d926204c3e4p-14);
         (0x1.010da48f0363cp-10, 0x1.ffffefde396cep-1, 0x1.010da7422429bp-10);
         (0, 1, 0) ]%float;
     pow := fun x y =>
       if PrimFloat.Leibniz.eqb y 2 then
         tabulated
           [ (-0x1.7557af078a08ap-15, 0x1.103c510a33842p-29);
             (-0x1.580f8d3493af8p-14, 0x1.ce69cc6f26f3fp-28);
             (0x1.be8c035563deep-13, 0x1.8576141896b67p-25);
             (0x1.3d8629813c038p-10, 0x1.89d5891988a62p-20);
             (0, 0) ]%float x
       else None |}.

(** A city with three lots, enumerated in this order: one across the bay,
    the demo lot, and an annex at the demo lot's coordinates.  Each has twelve
    unoccupied spots. *)
Definition oakland_lot : ParkingLot.t :=
  {| ParkingLot.name := "Oakland Center";
     ParkingLot.latitude := 37.8044;
     ParkingLot.longitude := -122.2712;
     ParkingLot.address := None;
     ParkingLot.price_per_hour := 3.0;
     ParkingLot.total_spots := 12 |}.

Definition annex_lot : ParkingLot.t :=
  {| ParkingLot.name := "Downtown Annex";
     ParkingLot.latitude := 37.7749;
     ParkingLot.longitude := -122.4194;
     ParkingLot.address := None;
     ParkingLot.price_per_hour := 5.0;
     ParkingLot.total_spots := 12 |}.

Definition city_store : Store :=
  {| parkinglot_docs := [Doc 20%N oakland_lot; Doc 0%N demo_lot; Doc 40%N annex_lot];
     parkingspot_docs :=
       demo_spots demo_lot_id 1%N (range 1 13)
       ++ demo_spots (ObjectId.str 20%N) 21%N (range 1 13)
       ++ demo_spots (ObjectId.str 40%N) 41%N (range 1 13);
     booking_docs := [];
     next_id := 53%N |}.

Definition city_env : Env :=
  {| db := Some city_store; ObjectId_imported := true |}.

(** A booking that lasts 1234.567891 seconds. *)
Definition odd_duration : timedelta := 1234567891.

(* ================================================================== *)
(** * The effect of each endpoint on the store *)

(** The category chosen for spot [i] passes the model's validation. *)
Definition demo_vtype_ok (i : Z) : bool :=
  existsb (String.eqb (demo_vtype i)) ParkingSpot.vehicle_types.

(** The store once [seed_demo_data] has inserted the demo lot and its
    twelve spots. *)
Definition seeded_store (st : Store) : Store :=
  {| parkinglot_docs := parkinglot_docs st ++ [Doc (next_id st) demo_lot];
     parkingspot_docs :=
       parkingspot_docs st
       ++ demo_spots (ObjectId.str (next_id st)) (N.succ (next_id st)) (range 1 13);
     booking_docs := booking_docs st;
     next_id := (next_id st + 13)%N |}.

(** The record [start_booking] inserts. *)
Definition new_booking (req : StartBookingRequest.t) (now : datetime) : Booking.t :=
  {| Booking.lot_id := StartBookingRequest.lot_id req;
     Booking.spot_id := StartBookingRequest.spot_id req;
     Booking.vehicle_plate := StartBookingRequest.vehicle_plate req;
     Booking.user_name := StartBookingRequest.user_name req;
     Booking.start_time := Some now;
     Booking.end_time := None;
     Booking.status := "active" |}.

(** The store once [start_booking] has marked spot [o] occupied and
    inserted the booking. *)
Definition started_store (st : Store) (o : ObjectId.t)
  (req : StartBookingRequest.t) (now : datetime) : Store :=
  {| parkinglot_docs := parkinglot_docs st;
     parkingspot_docs :=
       update_first o (ParkingSpot.set_is_occupied true) (parkingspot_docs st);
     booking_docs := booking_docs st ++ [Doc (next_id st) (new_booking req now)];
     next_id := N.succ (next_id st) |}.

(** [b.get("start_time") or datetime.now(timezone.utc)]. *)
Definition booking_start (b : Booking.t) (now0 : datetime) : datetime :=
  match Booking.start_time b with
  | Some t => t
  | None => now0
  end.

(** The hourly price [end_booking] bills: the referenced lot's, or 5.0 when
    the reference does not parse or no lot carries that id. *)
Definition resolved_price (st : Store) (b : Booking.t) : float :=
  match ObjectId (Booking.lot_id b) with
  | Some lo =>
      match List.find (has_id lo) (parkinglot_docs st) with
      | Some l => ParkingLot.price_per_hour (fields l)
      | None => 5.0%float
      end
  | None => 5.0%float
  end.

(** The result [end_booking] returns for booking [b] ended at [now]. *)
Definition bill (st : Store) (b : Booking.t) (now0 now : datetime)
  : EndBookingResult.t :=
  let minutes :=
    (total_seconds (datetime_sub now (booking_start b now0)) / 60.0)%float in
  {| EndBookingResult.duration_minutes := minutes;
     EndBookingResult.amount_due :=
       round ((minutes / 60.0) * resolved_price st b)%float 2;
     EndBookingResult.currency := "USD" |}.

(** [nearest_integer num den n]: [n] is the integer nearest to the fraction
    [num / den], for [0 < den], and the even one when two are equally near. *)
Definition nearest_integer (num den n : Z) : Prop :=
  2 * Z.abs (num - n * den) <= den
  /\ (2 * Z.abs (num - n * den) = den -> Z.even n = true).

(** [rounded_to_hundredths x y]: [y] is [x] rounded to two decimal places.
    A finite non-zero [x] is [m * 2 ^ e] up to its sign; with [n] the integer
    nearest to [100 * m * 2 ^ e], [y] is the float nearest to [n / 100], with
    the sign of [x].  Zeros, infinities and NaN are kept. *)
Definition rounded_to_hundredths (x y : float) : Prop :=
  match Prim2SF x with
  | S754_finite s m e =>
      exists n,
        nearest_integer (Zpos m * 100 * 2 ^ Z.max e 0) (2 ^ Z.max (- e) 0) n
        /\ y = if s then (- int_truediv n 100)%float else int_truediv n 100
  | _ => y = x
  end.

(** The store once [end_booking] has closed booking [o] and released the
    spot it names. *)
Definition ended_store (st : Store) (o : ObjectId.t) (b : Booking.t)
  (now : datetime) : Store :=
  {| parkinglot_docs := parkinglot_docs st;
     parkingspot_docs :=
       match ObjectId (Booking.spot_id b) with
       | Some so =>
           update_first so (ParkingSpot.set_is_occupied false) (parkingspot_docs st)
       | None => parkingspot_docs st
       end;
     booking_docs :=
       update_first o (Booking.set_status_end_time "completed" now) (booking_docs st);
     next_id := next_id st |}.

(** Store transitions of the state-changing endpoints. *)
Inductive store_step (st : Store) : Store -> Prop :=
| step_stay : store_step st st
| step_seed :
    parkinglot_docs st = [] ->
    store_step st (seeded_store st)
| step_start : forall req now lo o spot,
    ObjectId (StartBookingRequest.lot_id req) = Some lo ->
    ObjectId (StartBookingRequest.spot_id req) = Some o ->
    List.find (has_id o) (parkingspot_docs st) = Some spot ->
    ParkingSpot.is_occupied (fields spot) = false ->
    store_step st (started_store st o req now)
| step_end : forall o b now,
    List.find (has_id o) (booking_docs st) = Some b ->
    Booking.status (fields b) = "active"%string ->
    store_step st (ended_store st o (fields b) now).

(** A booking whose first document under identifier [o] is not active. *)
Definition closed_booking (o : ObjectId.t) (st : Store) : Prop :=
  exists b,
    List.find (has_id o) (booking_docs st) = Some b
    /\ Booking.status (fields b) <> "active"%string.

(* ================================================================== *)
(** * Scores and qualifying spots *)

(** Position of a float that is not NaN on the extended real line: sign
    class, then exponent, then mantissa (both negated below zero). *)
Definition rank (x : spec_float) : Z * Z * Z :=
  match x with
  | S754_zero _ => (0, 0, 0)
  | S754_infinity true => (-2, 0, 0)
  | S754_infinity false => (2, 0, 0)
  | S754_nan => (0, 0, 0)
  | S754_finite false m e => (1, e, Zpos m)
  | S754_finite true m e => (-1, - e, Zneg m)
  end.

(** Lexicographic order of positions. *)
Definition rank_lt (a b : Z * Z * Z) : Prop :=
  let '(a1, a2, a3) := a in
  let '(b1, b2, b3) := b in
  a1 < b1 \/ (a1 = b1 /\ (a2 < b2 \/ (a2 = b2 /\ a3 < b3))).

Definition is_nan (x : spec_float) : bool :=
  match x with S754_nan => true | _ => false end.

(** A spot qualifies for a lot and a request when it belongs to the lot, is
    unoccupied and, if the request names a category, carries that category. *)
Definition qualifies (req : RecommendationRequest.t) (lot : document ParkingLot.t)
  (s : document ParkingSpot.t) : bool :=
  (ParkingSpot.lot_id (fields s) =? ObjectId.str (_id lot))%string
  && negb (ParkingSpot.is_occupied (fields s))
  && match RecommendationRequest.vehicle_type req with
     | Some v => (v =? "")%string || (ParkingSpot.vehicle_type (fields s) =? v)%string
     | None => true
     end.

(** The qualifying spots of a lot, in enumeration order. *)
Definition candidates (st : Store) (req : RecommendationRequest.t)
  (lot : document ParkingLot.t) : list (document ParkingSpot.t) :=
  filter (qualifies req lot) (parkingspot_docs st).

Section Scores.

Variable libm : Libm.
Variable st : Store.
Variable req : RecommendationRequest.t.

(** Distance from the requester to a lot. *)
Definition distance_to (lot : document ParkingLot.t) : option float :=
  haversine libm (RecommendationRequest.lat req) (RecommendationRequest.lng req)
    (ParkingLot.latitude (fields lot)) (ParkingLot.longitude (fields lot)).

(** [score_of lot s]: the lot has a qualifying spot and its score, distance
    minus 0.05 per qualifying spot, is [s]. *)
Definition score_of (lot : document ParkingLot.t) (s : float) : Prop :=
  candidates st req lot <> []
  /\ exists dist,
       distance_to lot = Some dist
       /\ s = (dist - 0.05 * float_of_Z
                 (Z.of_nat (List.length (candidates st req lot))))%float.

(** Every lot with a qualifying spot has a score, and it is a number below
    [+inf]. *)
Definition scores_are_numbers (lots : list (document ParkingLot.t)) : Prop :=
  forall lot, In lot lots -> candidates st req lot <> [] ->
    exists s, score_of lot s /\ (s <? infinity)%float = true.

(** What the loop has established after the lots [seen]. *)
Definition scan_inv (seen : list (document ParkingLot.t)) (s : scan_state) : Prop :=
  let '(best, best_score, chosen_spot) := s in
  match best with
  | None =>
      best_score = infinity /\ chosen_spot = None
      /\ forall lot, In lot seen -> candidates st req lot = []
  | Some b =>
      exists before after,
        seen = before ++ b :: after
        /\ score_of b best_score
        /\ (best_score <? infinity)%float = true
        /\ chosen_spot = List.find (qualifies req b) (parkingspot_docs st)
        /\ chosen_spot <> None
        /\ (forall lot s, In lot before -> score_of lot s ->
              (best_score <? s)%float = true)
        /\ (forall lot s, In lot after -> score_of lot s ->
              (s <? best_score)%float = false)
  end.

End Scores.

(** The response built from the lot and spot the loop selected. *)
Definition response_for (best : document ParkingLot.t)
  (chosen_spot : option (document ParkingSpot.t)) : RecommendationResponse.t :=
  {| RecommendationResponse.lot_id := ObjectId.str (_id best);
     RecommendationResponse.lot_name := ParkingLot.name (fields best);
     RecommendationResponse.spot_id :=
       option_map (fun s => ObjectId.str (_id s)) chosen_spot;
     RecommendationResponse.spot_number :=
       option_map (fun s => ParkingSpot.spot_number (fields s)) chosen_spot;
     RecommendationResponse.reason := "Closest lot with available matching spots" |}.

(* ================================================================== *)
(** * Categories, occupancy and active bookings *)

(** The category names the specification lists. *)
Definition spec_categories : list string :=
  ["standard"; "motorcycle"; "electric"; "accessible"]%string.

(** Spots are only ever stored next to a lot. *)
Definition lots_behind_spots (st : Store) : Prop :=
  parkingspot_docs st <> [] -> parkinglot_docs st <> [].

(** Every stored spot passes the validation of [ParkingSpot]. *)
Definition spots_valid (st : Store) : Prop :=
  forall d, In d (parkingspot_docs st) -> ParkingSpot.valid (fields d) = true.

(** [references o b]: booking [b] is active and its [spot_id] denotes the
    spot with identifier [o]. *)
Definition references (o : ObjectId.t) (b : document Booking.t) : bool :=
  (Booking.status (fields b) =? "active")%string
  && match ObjectId (Booking.spot_id (fields b)) with
     | Some o' => ObjectId.eqb o' o
     | None => false
     end.

(** Number of active bookings that reference spot [o]. *)
Definition active_refs (st : Store) (o : ObjectId.t) : nat :=
  List.length (filter (references o) (booking_docs st)).

(** The occupancy flag of spot [o]; [false] when there is no such spot. *)
Definition occupied (st : Store) (o : ObjectId.t) : bool :=
  match List.find (has_id o) (parkingspot_docs st) with
  | Some s => ParkingSpot.is_occupied (fields s)
  | None => false
  end.

(** Every identifier of the collection was assigned before [n]. *)
Definition ids_below {A : Type} (n : ObjectId.t) (l : list (document A)) : Prop :=
  forall d, In d l -> (_id d < n)%N.

(** The invariant of sequential executions: spot identifiers are distinct,
    the next identifier is fresh, and a spot's flag counts the active
    bookings that reference it. *)
Record consistent (st : Store) : Prop := Build_consistent
  { spot_ids_nodup : NoDup (map (@_id ParkingSpot.t) (parkingspot_docs st));
    spot_ids_below : ids_below (next_id st) (parkingspot_docs st);
    booking_ids_below : ids_below (next_id st) (booking_docs st);
    refs_match : forall o, active_refs st o = if occupied st o then 1%nat else 0%nat }.

(* ================================================================== *)
(** * Availability, lifecycle and identifiers *)

(** The spots of a lot, occupied or not. *)
Definition in_lot (lot_id : string) (s : document ParkingSpot.t) : bool :=
  (ParkingSpot.lot_id (fields s) =? lot_id)%string.

(** Number of unoccupied spots that name the lot. *)
Definition free_count (st : Store) (lot : document ParkingLot.t) : Z :=
  Z.of_nat (List.length
              (filter (free_in_lot (ObjectId.str (_id lot))) (parkingspot_docs st))).

(** Number of occupied spots that name the lot. *)
Definition occupied_count (st : Store) (lot : document ParkingLot.t) : Z :=
  Z.of_nat (List.length
              (filter (occupied_in_lot (ObjectId.str (_id lot))) (parkingspot_docs st))).

(** The entry [list_lots] builds for a lot. *)
Definition availability (st : Store) (lot : document ParkingLot.t)
  : LotWithAvailability.t :=
  {| LotWithAvailability.id := ObjectId.str (_id lot);
     LotWithAvailability.name := ParkingLot.name (fields lot);
     LotWithAvailability.address := ParkingLot.address (fields lot);
     LotWithAvailability.latitude := ParkingLot.latitude (fields lot);
     LotWithAvailability.longitude := ParkingLot.longitude (fields lot);
     LotWithAvailability.price_per_hour := ParkingLot.price_per_hour (fields lot);
     LotWithAvailability.total_spots := ParkingLot.total_spots (fields lot);
     LotWithAvailability.available_spots :=
       Z.max (ParkingLot.total_spots (fields lot) - occupied_count st lot) 0 |}.

(** Every lot's [total_spots] is the number of spots that name it, and
    spots are stored only next to a lot. *)
Definition lots_sized (st : Store) : Prop :=
  lots_behind_spots st
  /\ forall lot, In lot (parkinglot_docs st) ->
       ParkingLot.total_spots (fields lot)
       = Z.of_nat (List.length
                     (filter (in_lot (ObjectId.str (_id lot))) (parkingspot_docs st))).

(** The shape of a stored booking: started, both references well-formed,
    and either active and open or completed and ended. *)
Definition booking_shape (b : Booking.t) : Prop :=
  Booking.start_time b <> None
  /\ ObjectId (Booking.lot_id b) <> None
  /\ ObjectId (Booking.spot_id b) <> None
  /\ ((Booking.status b = "active"%string /\ Booking.end_time b = None)
      \/ (Booking.status b = "completed"%string /\ Booking.end_time b <> None)).

Definition bookings_shaped (st : Store) : Prop :=
  forall d, In d (booking_docs st) -> booking_shape (fields d).

(** The requests that book every spot of the demo lot, and the state
    they lead to from the seeded store. *)
Definition book_spot (o : ObjectId.t) : request :=
  Start {| StartBookingRequest.lot_id := demo_lot_id;
           StartBookingRequest.spot_id := ObjectId.str o;
           StartBookingRequest.vehicle_plate := "FLEET";
           StartBookingRequest.user_name := None |} noon.

Definition full_env : Env :=
  run (map book_spot [1; 2; 3; 4; 5; 6; 7; 8; 9; 10; 11; 12]%N) demo_env.

Definition full_store : Store :=
  match db full_env with
  | Some st => st
  | None => empty_store
  end.

(** Identifiers that fit the twelve bytes of an ObjectId. *)
Definition twelve_bytes : N := (2 ^ 96)%N.

(** A float that is a zero or a finite number. *)
Definition is_finite (x : float) : bool :=
  match Prim2SF x with
  | S754_zero _ | S754_finite _ _ _ => true
  | _ => false
  end.

(** What [haversine] needs of the C library at a zero distance:
    [sin(0.0)], [0.0 ** 2] and [atan2(0.0, 1.0)] are [0.0]. *)
Definition exact_at_origin (libm : Libm) : Prop :=
  sin libm 0 = Some 0%float
  /\ pow libm 0 2 = Some 0%float
  /\ atan2 libm 0 1 = Some 0%float.

(* ================================================================== *)
(** * Running handlers on a configured service *)

Unset Implicit Arguments.

Arguments ObjectId.str : simpl never.
Arguments ObjectId.of_str : simpl never.
Arguments ObjectId : simpl never.
Arguments round : simpl never.
Arguments total_seconds : simpl never.
Arguments int_truediv : simpl never.
Arguments float_of_Z : simpl never.

Ltac unfold_ops :=
  unfold bind, ret, raise, lift, require_db, require_ObjectId,
    find, find_one, update_one, create_document, set_db in *.

Lemma bind_ext : forall A B (m : M A) (k k' : A -> M B) env,
  (forall a env', k a env' = k' a env') -> bind m k env = bind m k' env.
Proof.
  intros A B m k k' env H. unfold bind.
  destruct (m env) as [[a|c d] env']; [apply H | reflexivity].
Qed.

Lemma set_db_db : forall st env, db (set_db st env) = Some st.
Proof. reflexivity. Qed.

Lemma set_db_same : forall st env, db env = Some st -> set_db st env = env.
Proof. intros st [d b] H; simpl in H; subst; reflexivity. Qed.

Lemma demo_lot_valid : ParkingLot.new demo_lot = Ok demo_lot.
Proof. vm_compute. reflexivity. Qed.

Lemma seed_loop : forall lot_id ns env st,
  db env = Some st ->
  forallb demo_vtype_ok ns = true ->
  for_each ns (fun i =>
      spot <- lift (ParkingSpot.new
                      (ParkingSpot.Build lot_id (str_int i) (demo_vtype i) false)) ;;
      _ <- create_document parkingspot spot ;;
      ret tt) env
  = (Ok tt,
     set_db {| parkinglot_docs := parkinglot_docs st;
               parkingspot_docs :=
                 parkingspot_docs st ++ demo_spots lot_id (next_id st) ns;
               booking_docs := booking_docs st;
               next_id := (next_id st + N.of_nat (List.length ns))%N |} env).
Proof.
  intros lot_id ns; induction ns as [|i ns IH]; intros env st Hdb Hok.
  - simpl. unfold ret. rewrite app_nil_r, N.add_0_r.
    destruct st; simpl. rewrite set_db_same; auto.
  - simpl in Hok. apply andb_prop in Hok. destruct Hok as [Hi Hns].
    cbn [for_each]. unfold bind at 1.
    unfold bind at 1. unfold lift at 1. unfold ParkingSpot.new, ParkingSpot.valid.
    cbn [ParkingSpot.vehicle_type]. unfold demo_vtype_ok in Hi. rewrite Hi.
    unfold bind at 1. unfold create_document at 1. rewrite Hdb.
    unfold ret at 1.
    erewrite IH; [| apply set_db_db | exact Hns].
    f_equal. unfold set_db; simpl. f_equal. f_equal. f_equal.
    + rewrite <- app_assoc. reflexivity.
    + lia.
Qed.

Lemma seed_on_empty : forall env st,
  db env = Some st ->
  parkinglot_docs st = [] ->
  seed_demo_data env
  = (Ok (SeedResponse.Build "ok" true (Some (ObjectId.str (next_id st)))),
     set_db (seeded_store st) env).
Proof.
  intros env st Hdb Hl. unfold seed_demo_data.
  unfold bind at 1. unfold require_db. rewrite Hdb.
  unfold bind at 1. unfold find at 1. rewrite Hdb. cbn [docs]. rewrite Hl. cbn [filter].
  unfold bind at 1. rewrite demo_lot_valid. unfold lift at 1.
  unfold bind at 1. unfold create_document at 1. rewrite Hdb.
  unfold bind at 1.
  erewrite seed_loop; [| apply set_db_db | vm_compute; reflexivity].
  unfold ret, set_db, seeded_store; simpl. rewrite Hl.
  do 4 f_equal. lia.
Qed.

Lemma seed_on_seeded : forall env st,
  db env = Some st ->
  parkinglot_docs st <> [] ->
  seed_demo_data env = (Ok (SeedResponse.Build "ok" false None), env).
Proof.
  intros env st Hdb Hl. unfold seed_demo_data.
  unfold bind at 1. unfold require_db. rewrite Hdb.
  unfold bind at 1. unfold find at 1. rewrite Hdb. cbn [docs].
  rewrite forallb_filter_id by (apply forallb_forall; reflexivity).
  destruct (parkinglot_docs st); [congruence | reflexivity].
Qed.

Lemma seed_without_db : forall env,
  db env = None ->
  seed_demo_data env = (HTTPException 500 "Database not configured", env).
Proof.
  intros env Hdb. unfold seed_demo_data, bind, require_db. rewrite Hdb. reflexivity.
Qed.

(** ** Lookups and updates by identifier *)

Lemma has_id_true : forall A o (d : document A), has_id o d = true <-> _id d = o.
Proof. intros; unfold has_id, ObjectId.eqb; apply N.eqb_eq. Qed.

Lemma find_has_id : forall A o (l : list (document A)) d,
  List.find (has_id o) l = Some d -> _id d = o /\ In d l.
Proof.
  intros A o l d H. apply find_some in H. destruct H as [Hin Hid].
  split; [apply has_id_true; exact Hid | exact Hin].
Qed.

Lemma find_app : forall A (p : A -> bool) l l',
  List.find p (l ++ l') =
  match List.find p l with Some x => Some x | None => List.find p l' end.
Proof.
  intros A p l l'; induction l as [|x l IH]; simpl; [reflexivity|].
  destruct (p x); auto.
Qed.

Lemma find_update_first_same : forall A o (f : A -> A) (l : list (document A)),
  List.find (has_id o) (update_first o f l) =
  option_map (fun d => Doc (_id d) (f (fields d))) (List.find (has_id o) l).
Proof.
  intros A o f l; induction l as [|d l IH]; simpl; [reflexivity|].
  destruct (has_id o d) eqn:E; simpl.
  - unfold has_id in *; simpl. rewrite E. reflexivity.
  - rewrite E. exact IH.
Qed.

Lemma find_update_first_other : forall A o o' (f : A -> A) (l : list (document A)),
  o <> o' ->
  List.find (has_id o) (update_first o' f l) = List.find (has_id o) l.
Proof.
  intros A o o' f l Hne; induction l as [|d l IH]; simpl; [reflexivity|].
  destruct (has_id o' d) eqn:E'; simpl.
  - apply has_id_true in E'.
    assert (Hd : has_id o d = false).
    { destruct (has_id o d) eqn:E; [apply has_id_true in E; congruence | reflexivity]. }
    unfold has_id in *; simpl. rewrite Hd. reflexivity.
  - destruct (has_id o d); [reflexivity | exact IH].
Qed.

Lemma map_id_update_first : forall A o (f : A -> A) (l : list (document A)),
  map (@_id A) (update_first o f l) = map (@_id A) l.
Proof.
  intros A o f l; induction l as [|d l IH]; simpl; [reflexivity|].
  destruct (has_id o d); simpl; congruence.
Qed.

Lemma in_update_first : forall A o (f : A -> A) (l : list (document A)) d,
  In d (update_first o f l) ->
  In d l \/ exists d0, In d0 l /\ d = Doc (_id d0) (f (fields d0)).
Proof.
  intros A o f l; induction l as [|x l IH]; simpl; intros d H; [tauto|].
  destruct (has_id o x); simpl in H.
  - destruct H as [H|H]; [right; exists x; auto | left; auto].
  - destruct H as [H|H]; [left; auto|].
    destruct (IH d H) as [H1|[d0 [H1 H2]]]; [left; auto | right; exists d0; auto].
Qed.

Lemma ObjectId_empty : ObjectId "" = None.
Proof. reflexivity. Qed.

(** ** What each handler does to the store *)

Lemma start_booking_ok : forall env st req now lo o spot,
  db env = Some st ->
  ObjectId_imported env = true ->
  ObjectId (StartBookingRequest.lot_id req) = Some lo ->
  ObjectId (StartBookingRequest.spot_id req) = Some o ->
  List.find (has_id o) (parkingspot_docs st) = Some spot ->
  ParkingSpot.is_occupied (fields spot) = false ->
  start_booking req now env
  = (Ok (BookingResponse.Build (ObjectId.str (next_id st)) "active"),
     set_db (started_store st o req now) env).
Proof.
  intros env st req now lo o spot Hdb Himp Hlo Ho Hfind Hfree.
  destruct (find_has_id _ _ _ _ Hfind) as [Hid _].
  unfold start_booking. unfold_ops. rewrite Hdb, Himp, Hlo, Hdb, Ho, Hdb.
  cbn [docs]. rewrite Hfind, Hfree, Hdb. cbn [db docs set_docs].
  unfold Booking.new, Booking.valid. cbn.
  unfold started_store, new_booking, bump_id. cbn.
  rewrite ?Himp, ?Hid. reflexivity.
Qed.

Lemma start_booking_cases : forall env st req now r env',
  db env = Some st ->
  start_booking req now env = (r, env') ->
  (is_ok r = false /\ env' = env)
  \/ (exists lo o spot,
        ObjectId (StartBookingRequest.lot_id req) = Some lo
        /\ ObjectId (StartBookingRequest.spot_id req) = Some o
        /\ List.find (has_id o) (parkingspot_docs st) = Some spot
        /\ ParkingSpot.is_occupied (fields spot) = false
        /\ r = Ok (BookingResponse.Build (ObjectId.str (next_id st)) "active")
        /\ env' = set_db (started_store st o req now) env).
Proof.
  intros env st req now r env' Hdb H.
  destruct (ObjectId_imported env) eqn:Himp.
  2:{ unfold start_booking in H. unfold_ops. rewrite Hdb, Himp in H.
      inversion H; subst. left; auto. }
  destruct (ObjectId (StartBookingRequest.lot_id req)) as [lo|] eqn:Hlo.
  2:{ unfold start_booking in H. unfold_ops. rewrite Hdb, Himp, Hlo in H.
      inversion H; subst. left; auto. }
  destruct (ObjectId (StartBookingRequest.spot_id req)) as [o|] eqn:Ho.
  2:{ unfold start_booking in H. unfold_ops. rewrite Hdb, Himp, Hlo, Hdb, Ho in H.
      inversion H; subst. left; auto. }
  destruct (List.find (has_id o) (parkingspot_docs st)) as [spot|] eqn:Hfind.
  2:{ unfold start_booking in H. unfold_ops.
      rewrite Hdb, Himp, Hlo, Hdb, Ho, Hdb in H. cbn [docs] in H.
      rewrite Hfind in H. inversion H; subst. left; auto. }
  destruct (ParkingSpot.is_occupied (fields spot)) eqn:Hocc.
  - unfold start_booking in H. unfold_ops.
    rewrite Hdb, Himp, Hlo, Hdb, Ho, Hdb in H. cbn [docs] in H.
    rewrite Hfind, Hocc in H. inversion H; subst. left; auto.
  - right. exists lo, o, spot.
    rewrite (start_booking_ok _ _ req now _ _ _ Hdb Himp Hlo Ho Hfind Hocc) in H.
    inversion H; subst. auto 10.
Qed.

Lemma booking_lot_run : forall env st b,
  db env = Some st ->
  exists lot,
    booking_lot b env = (Ok lot, env) /\ lot_price lot = resolved_price st b.
Proof.
  intros env st b Hdb. unfold booking_lot, resolved_price.
  destruct (Booking.lot_id b =? "")%string eqn:E.
  - apply String.eqb_eq in E. rewrite E, ObjectId_empty.
    exists None. split; reflexivity.
  - destruct (ObjectId (Booking.lot_id b)) as [lo|].
    + unfold find_one. rewrite Hdb. cbn [docs].
      exists (List.find (has_id lo) (parkinglot_docs st)). split; [reflexivity|].
      destruct (List.find (has_id lo) (parkinglot_docs st)); reflexivity.
    + exists None. split; reflexivity.
Qed.

Lemma end_booking_ok : forall env st req now0 now o b,
  db env = Some st ->
  ObjectId_imported env = true ->
  ObjectId (EndBookingRequest.booking_id req) = Some o ->
  List.find (has_id o) (booking_docs st) = Some b ->
  Booking.status (fields b) = "active"%string ->
  end_booking req now0 now env
  = (Ok (bill st (fields b) now0 now),
     set_db (ended_store st o (fields b) now) env).
Proof.
  intros env st req now0 now o b Hdb Himp Ho Hfind Hact.
  destruct (find_has_id _ _ _ _ Hfind) as [Hid _].
  destruct (booking_lot_run env st (fields b) Hdb) as [lot [Hlot Hprice]].
  unfold end_booking.
  unfold bind at 1. unfold require_db. rewrite Hdb.
  unfold bind at 1. unfold require_ObjectId. rewrite Himp.
  rewrite Ho.
  unfold bind at 1. unfold find_one at 1. rewrite Hdb. cbn [docs].
  rewrite Hfind, Hact. cbn [String.eqb Ascii.eqb Bool.eqb negb].
  unfold bind at 1. rewrite Hlot.
  unfold bind at 1. unfold update_one at 1. rewrite Hdb. cbn [docs set_docs].
  unfold bind at 1.
  unfold bill, ended_store, booking_start. rewrite Hprice, Hid.
  destruct (ObjectId (Booking.spot_id (fields b))) as [so|].
  - unfold update_one, ret, set_db. cbn. reflexivity.
  - unfold ret, set_db. cbn. destruct st; reflexivity.
Qed.

Lemma end_booking_cases : forall env st req now0 now r env',
  db env = Some st ->
  end_booking req now0 now env = (r, env') ->
  (is_ok r = false /\ env' = env)
  \/ (exists o b,
        ObjectId_imported env = true
        /\ ObjectId (EndBookingRequest.booking_id req) = Some o
        /\ List.find (has_id o) (booking_docs st) = Some b
        /\ Booking.status (fields b) = "active"%string
        /\ r = Ok (bill st (fields b) now0 now)
        /\ env' = set_db (ended_store st o (fields b) now) env).
Proof.
  intros env st req now0 now r env' Hdb H.
  destruct (ObjectId_imported env) eqn:Himp.
  2:{ unfold end_booking in H. unfold_ops. rewrite Hdb, Himp in H.
      inversion H; subst. left; auto. }
  destruct (ObjectId (EndBookingRequest.booking_id req)) as [o|] eqn:Ho.
  2:{ unfold end_booking in H. unfold_ops. rewrite Hdb, Himp, Ho in H.
      inversion H; subst. left; auto. }
  destruct (List.find (has_id o) (booking_docs st)) as [b|] eqn:Hfind.
  2:{ unfold end_booking in H. unfold_ops. rewrite Hdb, Himp, Ho, Hdb in H.
      cbn [docs] in H. rewrite Hfind in H. inversion H; subst. left; auto. }
  destruct (Booking.status (fields b) =? "active")%string eqn:Hact.
  - apply String.eqb_eq in Hact. right. exists o, b.
    rewrite (end_booking_ok env st req now0 now o b Hdb Himp Ho Hfind Hact) in H.
    inversion H; subst. auto 10.
  - unfold end_booking in H. unfold_ops. rewrite Hdb, Himp, Ho, Hdb in H.
    cbn [docs] in H. rewrite Hfind, Hact in H. cbn [negb] in H.
    inversion H; subst. left; auto.
Qed.

Lemma end_booking_closed : forall env st req now0 now o b,
  db env = Some st ->
  ObjectId_imported env = true ->
  ObjectId (EndBookingRequest.booking_id req) = Some o ->
  List.find (has_id o) (booking_docs st) = Some b ->
  Booking.status (fields b) <> "active"%string ->
  end_booking req now0 now env = (AlreadyClosed, env).
Proof.
  intros env st req now0 now o b Hdb Himp Ho Hfind Hact.
  apply String.eqb_neq in Hact.
  unfold end_booking. unfold_ops. rewrite Hdb, Himp, Ho, Hdb.
  cbn [docs]. rewrite Hfind, Hact. reflexivity.
Qed.

(** ** Every request is a store transition *)

Lemma handle_step : forall r env st,
  db env = Some st ->
  exists st', handle r env = set_db st' env /\ store_step st st'.
Proof.
  intros r env st Hdb. destruct r as [|req now|req now0 now]; simpl.
  - destruct (parkinglot_docs st) as [|l ls] eqn:Hl.
    + rewrite (seed_on_empty env st Hdb Hl). simpl.
      exists (seeded_store st). split; [reflexivity | apply step_seed; exact Hl].
    + rewrite (seed_on_seeded env st Hdb) by congruence. simpl.
      exists st. split; [symmetry; apply set_db_same; exact Hdb | apply step_stay].
  - destruct (start_booking req now env) as [r env'] eqn:H.
    destruct (start_booking_cases env st req now r env' Hdb H)
      as [[_ He]|[lo [o [spot [Hlo [Ho [Hf [Hocc [_ He]]]]]]]]]; simpl; subst env'.
    + exists st. split; [symmetry; apply set_db_same; exact Hdb | apply step_stay].
    + exists (started_store st o req now). split; [reflexivity|].
      eapply step_start; eauto.
  - destruct (end_booking req now0 now env) as [r env'] eqn:H.
    destruct (end_booking_cases env st req now0 now r env' Hdb H)
      as [[_ He]|[o [b [_ [Ho [Hf [Hact [_ He]]]]]]]]; simpl; subst env'.
    + exists st. split; [symmetry; apply set_db_same; exact Hdb | apply step_stay].
    + exists (ended_store st o (fields b) now). split; [reflexivity|].
      apply step_end; assumption.
Qed.

(** An invariant of the store transitions holds after every run. *)
Lemma run_invariant : forall (P : Store -> Prop),
  (forall st st', P st -> store_step st st' -> P st') ->
  forall rs env st,
    db env = Some st -> P st ->
    exists st', run rs env = set_db st' env /\ P st'.
Proof.
  intros P Hstep rs; induction rs as [|r rs IH]; intros env st Hdb HP.
  - exists st. split; [symmetry; apply set_db_same; exact Hdb | exact HP].
  - change (run (r :: rs) env) with (run rs (handle r env)).
    destruct (handle_step r env st Hdb) as [st1 [He Hs]]. rewrite He.
    destruct (IH (set_db st1 env) st1 (set_db_db _ _) (Hstep _ _ HP Hs))
      as [st2 [Hr HP2]].
    exists st2. split; [rewrite Hr; reflexivity | exact HP2].
Qed.

Lemma reachable_invariant : forall (P : Store -> Prop),
  P empty_store ->
  (forall st st', P st -> store_step st st' -> P st') ->
  forall env, reachable env ->
    exists st, db env = Some st /\ ObjectId_imported env = true /\ P st.
Proof.
  intros P H0 Hstep env [rs Hr].
  destruct (run_invariant P Hstep rs fresh_env empty_store eq_refl H0)
    as [st [He HP]].
  exists st. rewrite <- Hr, He. auto.
Qed.

(* ================================================================== *)
(** * Seeding *)

(** C8. Seeding is idempotent: on a store that already holds a lot, [seed]
    inserts nothing and answers [seeded = false]; hence of two calls in
    succession only the first can create the demo lot and its twelve spots,
    and the second leaves the store as the first left it. *)
Theorem seed_idempotent : forall env st,
  db env = Some st ->
  (parkinglot_docs st <> [] ->
   seed_demo_data env = (Ok (SeedResponse.Build "ok" false None), env))
  /\ (forall r1 env1,
        seed_demo_data env = (r1, env1) ->
        seed_demo_data env1 = (Ok (SeedResponse.Build "ok" false None), env1)
        /\ exists st1,
             db env1 = Some st1
             /\ (st1 = st
                 \/ (parkinglot_docs st = []
                     /\ parkinglot_docs st1 = [Doc (next_id st) demo_lot]
                     /\ List.length (parkingspot_docs st1)
                        = (List.length (parkingspot_docs st) + 12)%nat))).
Proof.
  intros env st Hdb. split.
  - intros Hl. apply (seed_on_seeded env st Hdb Hl).
  - intros r1 env1 H1.
    destruct (parkinglot_docs st) as [|l ls] eqn:Hl.
    + rewrite (seed_on_empty env st Hdb Hl) in H1. inversion H1; subst r1 env1.
      split.
      * apply (seed_on_seeded _ (seeded_store st) (set_db_db _ _)).
        unfold seeded_store; simpl. rewrite Hl. discriminate.
      * exists (seeded_store st). split; [reflexivity|]. right.
        split; [reflexivity|]. unfold seeded_store; simpl. rewrite Hl.
        split; [reflexivity|]. rewrite length_app. reflexivity.
    + assert (Hne : parkinglot_docs st <> []) by congruence.
      rewrite (seed_on_seeded env st Hdb Hne) in H1. inversion H1; subst r1 env1.
      split; [apply (seed_on_seeded env st Hdb Hne)|].
      exists st. auto.
Qed.

Lemma seed_idempotent_witness :
  db fresh_env = Some empty_store
  /\ seed_demo_data demo_env = (Ok (SeedResponse.Build "ok" false None), demo_env).
Proof.
  split; [reflexivity|].
  exact (proj1 (proj2 (seed_idempotent fresh_env empty_store eq_refl)
                 _ _ (surjective_pairing _))).
Defined.

(* ================================================================== *)
(** * Starting a booking *)

Lemma start_booking_invalid_lot : forall env st req now,
  db env = Some st ->
  ObjectId_imported env = true ->
  ObjectId (StartBookingRequest.lot_id req) = None ->
  start_booking req now env = (InvalidLot, env).
Proof.
  intros env st req now Hdb Himp Hlo.
  unfold start_booking. unfold_ops. rewrite Hdb, Himp, Hlo. reflexivity.
Qed.

Lemma start_booking_occupied : forall env st req now lo o spot,
  db env = Some st ->
  ObjectId_imported env = true ->
  ObjectId (StartBookingRequest.lot_id req) = Some lo ->
  ObjectId (StartBookingRequest.spot_id req) = Some o ->
  List.find (has_id o) (parkingspot_docs st) = Some spot ->
  ParkingSpot.is_occupied (fields spot) = true ->
  start_booking req now env = (SpotConflict, env).
Proof.
  intros env st req now lo o spot Hdb Himp Hlo Ho Hfind Hocc.
  unfold start_booking. unfold_ops. rewrite Hdb, Himp, Hlo, Hdb, Ho, Hdb.
  cbn [docs]. rewrite Hfind, Hocc. reflexivity.
Qed.

(** C2, as stated, fails: a request for an occupied spot whose [lot_id] is
    not a well-formed id is answered 400 "Invalid lot id", not 409, because
    the lot id is validated before the spot is looked at. *)
Lemma start_occupied_conflict_refuted :
  ~ (forall env st req now o spot,
       db env = Some st ->
       ObjectId_imported env = true ->
       ObjectId (StartBookingRequest.spot_id req) = Some o ->
       List.find (has_id o) (parkingspot_docs st) = Some spot ->
       ParkingSpot.is_occupied (fields spot) = true ->
       fst (start_booking req now env) = SpotConflict).
Proof.
  intros H.
  specialize (H booked_env
                booked_store
                start_bad_lot (noon + 1) 5%N
                (Doc 5%N (ParkingSpot.Build demo_lot_id "5" "accessible" true))
                eq_refl eq_refl eq_refl eq_refl eq_refl).
  vm_compute in H. discriminate H.
Qed.

(** C2, amended. With the database configured and [ObjectId] imported, a
    [start] call whose spot exists and is occupied never succeeds and changes
    nothing in the store: it is answered 409 "Spot already occupied" when
    [ObjectId] accepts [lot_id], and 400 "Invalid lot id" when it does not. *)
Theorem start_occupied_fails : forall env st req now o spot,
  db env = Some st ->
  ObjectId_imported env = true ->
  ObjectId (StartBookingRequest.spot_id req) = Some o ->
  List.find (has_id o) (parkingspot_docs st) = Some spot ->
  ParkingSpot.is_occupied (fields spot) = true ->
  (ObjectId (StartBookingRequest.lot_id req) <> None ->
   start_booking req now env = (SpotConflict, env))
  /\ (ObjectId (StartBookingRequest.lot_id req) = None ->
      start_booking req now env = (InvalidLot, env))
  /\ is_ok (fst (start_booking req now env)) = false
  /\ snd (start_booking req now env) = env.
Proof.
  intros env st req now o spot Hdb Himp Ho Hfind Hocc.
  destruct (ObjectId (StartBookingRequest.lot_id req)) as [lo|] eqn:Hlo.
  - rewrite (start_booking_occupied env st req now lo o spot) by assumption.
    repeat split; congruence.
  - rewrite (start_booking_invalid_lot env st req now) by assumption.
    repeat split; congruence.
Qed.

Lemma start_occupied_fails_witness :
  start_booking start_accessible (noon + 1) booked_env = (SpotConflict, booked_env)
  /\ start_booking start_spaced_lot (noon + 1) booked_env = (SpotConflict, booked_env)
  /\ start_booking start_bad_lot (noon + 1) booked_env = (InvalidLot, booked_env).
Proof.
  split; [|split].
  - apply (start_occupied_fails booked_env
             booked_store
             start_accessible (noon + 1) 5%N
             (Doc 5%N (ParkingSpot.Build demo_lot_id "5" "accessible" true))
             eq_refl eq_refl eq_refl eq_refl eq_refl).
    vm_compute. discriminate.
  - apply (start_occupied_fails booked_env
             booked_store
             start_spaced_lot (noon + 1) 5%N
             (Doc 5%N (ParkingSpot.Build demo_lot_id "5" "accessible" true))
             eq_refl eq_refl eq_refl eq_refl eq_refl).
    vm_compute. discriminate.
  - apply (start_occupied_fails booked_env
             booked_store
             start_bad_lot (noon + 1) 5%N
             (Doc 5%N (ParkingSpot.Build demo_lot_id "5" "accessible" true))
             eq_refl eq_refl eq_refl eq_refl eq_refl).
    reflexivity.
Defined.

(** C7. [start] answers 400 "Invalid lot id" for a malformed [lot_id]; but
    for a well-formed [lot_id] that no lot carries the lookup's result is
    dropped and the booking is created instead of a 404. *)
Theorem start_absent_lot_is_booked :
  start_booking start_bad_lot noon demo_env = (InvalidLot, demo_env)
  /\ ObjectId absent_lot_id = Some 79228162514264337593543950335%N
  /\ fst (find_one parkinglot 79228162514264337593543950335%N demo_env) = Ok None
  /\ fst (start_booking start_absent_lot noon demo_env)
     = Ok (BookingResponse.Build "00000000000000000000000d" "active").
Proof. vm_compute. repeat split; reflexivity. Qed.

(* ================================================================== *)
(** * Ending a booking *)

Lemma div_half_even_nearest : forall a b,
  0 <= a -> 0 < b -> nearest_integer a b (div_half_even a b).
Proof.
  intros a b Ha Hb. unfold nearest_integer, div_half_even.
  pose proof (Z.div_mod a b ltac:(lia)) as Hdiv.
  pose proof (Z.mod_pos_bound a b Hb) as Hmod.
  destruct (Z.compare_spec (2 * (a mod b)) b) as [He|Hl|Hg].
  - destruct (Z.even (a / b)) eqn:Ev.
    + split; [|intros _; exact Ev].
      replace (a - a / b * b) with (a mod b) by lia. lia.
    + split.
      * replace (a - (a / b + 1) * b) with (a mod b - b) by lia. lia.
      * intros _. rewrite Z.add_1_r, Z.even_succ, <- Z.negb_even, Ev. reflexivity.
  - replace (a - a / b * b) with (a mod b) by lia. split; lia.
  - replace (a - (a / b + 1) * b) with (a mod b - b) by lia. split; lia.
Qed.

(** [round(x, 2)] rounds to the nearest hundredth, halves to the even
    one. *)
Lemma round_to_hundredths : forall x, rounded_to_hundredths x (round x 2).
Proof.
  intros x. unfold rounded_to_hundredths, round.
  destruct (Prim2SF x) as [s|s| |s m e]; try reflexivity.
  change (10 ^ Z.of_nat 2) with 100.
  destruct (Z.leb_spec 0 e) as [He|He].
  - exists (Zpos m * 2 ^ e * 100). split; [|reflexivity].
    rewrite (Z.max_l e 0), (Z.max_r (- e) 0) by lia.
    change (2 ^ 0) with 1. unfold nearest_integer.
    replace (Zpos m * 100 * 2 ^ e - Zpos m * 2 ^ e * 100 * 1) with 0 by lia.
    simpl. split; [lia | discriminate].
  - exists (div_half_even (Zpos m * 100) (2 ^ (- e))). split; [|reflexivity].
    rewrite (Z.max_r e 0), (Z.max_l (- e) 0) by lia.
    change (2 ^ 0) with 1. rewrite Z.mul_1_r.
    apply div_half_even_nearest; [lia|]. apply Z.pow_pos_nonneg; lia.
Qed.

(** C3. Ending an active booking succeeds and bills
    [duration_minutes / 60 * price_per_hour] rounded to two decimal places
    (the nearest hundredth, halves to the even one, as [round(_, 2)] does),
    where the price is that of the lot the booking references and 5.0 when
    the reference is empty or malformed or names no lot; one hour at 5.0 per
    hour is billed 5.00. *)
Theorem end_booking_amount_due : forall env st req now0 now o b,
  db env = Some st ->
  ObjectId_imported env = true ->
  ObjectId (EndBookingRequest.booking_id req) = Some o ->
  List.find (has_id o) (booking_docs st) = Some b ->
  Booking.status (fields b) = "active"%string ->
  exists r env' price,
    end_booking req now0 now env = (Ok r, env')
    /\ EndBookingResult.duration_minutes r
       = (total_seconds (datetime_sub now (booking_start (fields b) now0)) / 60.0)%float
    /\ EndBookingResult.amount_due r
       = round ((EndBookingResult.duration_minutes r / 60.0) * price)%float 2
    /\ rounded_to_hundredths
         ((EndBookingResult.duration_minutes r / 60.0) * price)%float
         (EndBookingResult.amount_due r)
    /\ (forall lo l,
          ObjectId (Booking.lot_id (fields b)) = Some lo ->
          List.find (has_id lo) (parkinglot_docs st) = Some l ->
          price = ParkingLot.price_per_hour (fields l))
    /\ (Booking.lot_id (fields b) = ""%string -> price = 5.0%float)
    /\ (ObjectId (Booking.lot_id (fields b)) = None -> price = 5.0%float)
    /\ (forall lo,
          ObjectId (Booking.lot_id (fields b)) = Some lo ->
          List.find (has_id lo) (parkinglot_docs st) = None ->
          price = 5.0%float)
    /\ (forall t,
          Booking.start_time (fields b) = Some t ->
          now = t + 60 * 60 * 1000000 ->
          price = 5.0%float ->
          EndBookingResult.duration_minutes r = 60%float
          /\ EndBookingResult.amount_due r = 5.0%float).
Proof.
  intros env st req now0 now o b Hdb Himp Ho Hfind Hact.
  exists (bill st (fields b) now0 now),
         (set_db (ended_store st o (fields b) now) env),
         (resolved_price st (fields b)).
  split; [apply end_booking_ok; assumption|].
  split; [reflexivity|]. split; [reflexivity|].
  split; [apply round_to_hundredths|].
  unfold resolved_price.
  split; [intros lo l Hlo Hl; rewrite Hlo, Hl; reflexivity|].
  split; [intros He; rewrite He, ObjectId_empty; reflexivity|].
  split; [intros Hlo; rewrite Hlo; reflexivity|].
  split; [intros lo Hlo Hl; rewrite Hlo, Hl; reflexivity|].
  intros t Ht Hnow Hp. unfold bill. cbn [EndBookingResult.duration_minutes
    EndBookingResult.amount_due]. unfold resolved_price. rewrite Hp.
  unfold booking_start. rewrite Ht. unfold datetime_sub. subst now.
  replace (t + 60 * 60 * 1000000 - t) with 3600000000 by lia.
  split; vm_compute; reflexivity.
Qed.

Lemma end_booking_amount_due_witness :
  (exists r env',
     end_booking end_first 0 (noon + one_hour) booked_env = (Ok r, env')
     /\ EndBookingResult.duration_minutes r = 60%float
     /\ EndBookingResult.amount_due r = 5.0%float)
  /\ (exists r env',
        end_booking end_first 0 (noon + odd_duration) booked_env = (Ok r, env')
        /\ EndBookingResult.duration_minutes r = 20.576131516666667%float
        /\ (EndBookingResult.duration_minutes r / 60.0 * 5.0)%float
           = 1.7146776263888888%float
        /\ EndBookingResult.amount_due r = 1.71%float).
Proof.
  split.
  - destruct (end_booking_amount_due booked_env
                booked_store
                end_first 0 (noon + one_hour) 13%N
                (Doc 13%N (new_booking start_accessible noon))
                eq_refl eq_refl eq_refl eq_refl eq_refl)
      as [r [env' [price [Hrun [_ [_ [_ [Hprice [_ [_ [_ Hhour]]]]]]]]]]].
    exists r, env'. split; [exact Hrun|].
    apply (Hhour noon eq_refl eq_refl).
    apply (Hprice 0%N (Doc 0%N demo_lot) eq_refl eq_refl).
  - destruct (end_booking_amount_due booked_env
                booked_store
                end_first 0 (noon + odd_duration) 13%N
                (Doc 13%N (new_booking start_accessible noon))
                eq_refl eq_refl eq_refl eq_refl eq_refl)
      as [r [env' [price [Hrun [Hdur [_ [Hcents [Hprice _]]]]]]]].
    exists r, env'. split; [exact Hrun|].
    rewrite (Hprice 0%N (Doc 0%N demo_lot) eq_refl eq_refl) in Hcents.
    rewrite Hdur in Hcents |- *. clear Hdur.
    set (d := (total_seconds _ / 60.0)%float) in *.
    assert (Hd : d = 20.576131516666667%float) by (vm_compute; reflexivity).
    clearbody d. subst d.
    split; [reflexivity|]. split; [vm_compute; reflexivity|].
    unfold rounded_to_hundredths in Hcents.
    match type of Hcents with
    | context [Prim2SF ?x] =>
        assert (HP : Prim2SF x = S754_finite false 7722221519265526 (-52))
          by (vm_compute; reflexivity);
        rewrite HP in Hcents
    end.
    destruct Hcents as [n [[Hn _] ->]].
    change (2 ^ Z.max (-52) 0) with 1 in Hn.
    change (2 ^ Z.max (- -52) 0) with 4503599627370496 in Hn.
    assert (n = 171) by lia. subst n. vm_compute. reflexivity.
Defined.

Lemma round_examples :
  round 2.675 2 = 2.67%float /\ round 0.125 2 = 0.12%float
  /\ round 0.375 2 = 0.38%float /\ round 1.005 2 = 1%float
  /\ round (-0.001) 2 = (-0)%float /\ round 5 2 = 5%float
  /\ round infinity 2 = infinity.
Proof. vm_compute. repeat split; reflexivity. Qed.

Lemma closed_booking_step : forall o st st',
  closed_booking o st -> store_step st st' -> closed_booking o st'.
Proof.
  intros o st st' [b [Hb Hs]] Hstep.
  destruct Hstep as [|Hl|req now lo o' spot _ _ _ _|o' b' now Hf' Ha'].
  - exists b; auto.
  - exists b; auto.
  - exists b. split; [|exact Hs]. unfold started_store; cbn [booking_docs].
    rewrite find_app, Hb. reflexivity.
  - unfold closed_booking, ended_store; cbn [booking_docs].
    destruct (N.eq_dec o o') as [->|Hne].
    + rewrite find_update_first_same, Hb. cbn [option_map].
      eexists. split; [reflexivity|]. cbn. discriminate.
    + rewrite find_update_first_other by exact Hne. exists b; auto.
Qed.

(** C4. Once [end] has succeeded for a booking, every later [end] for the
    same booking, whatever requests were served in between, is answered 409
    "Booking already closed" and changes nothing: the bill is computed at most
    once. *)
Theorem end_twice_already_closed : forall env st req now0 now r env1,
  db env = Some st ->
  end_booking req now0 now env = (Ok r, env1) ->
  forall rs req' now0' now',
    ObjectId (EndBookingRequest.booking_id req')
    = ObjectId (EndBookingRequest.booking_id req) ->
    end_booking req' now0' now' (run rs env1) = (AlreadyClosed, run rs env1).
Proof.
  intros env st req now0 now r env1 Hdb H rs req' now0' now' Hsame.
  destruct (end_booking_cases env st req now0 now _ _ Hdb H)
    as [[Hr _]|[o [b [Himp [Ho [Hf [_ [_ He]]]]]]]]; [discriminate Hr|].
  assert (Hclosed : closed_booking o (ended_store st o (fields b) now)).
  { unfold closed_booking, ended_store; cbn [booking_docs].
    rewrite find_update_first_same, Hf. cbn [option_map].
    eexists. split; [reflexivity|]. cbn. discriminate. }
  destruct (run_invariant (closed_booking o) (closed_booking_step o) rs env1
              (ended_store st o (fields b) now))
    as [st' [Hrun [b' [Hb' Hs']]]]; [subst env1; reflexivity | exact Hclosed |].
  rewrite Hrun.
  apply (end_booking_closed _ st' req' now0' now' o b').
  - reflexivity.
  - subst env1. exact Himp.
  - rewrite Hsame. exact Ho.
  - exact Hb'.
  - exact Hs'.
Qed.

Lemma end_twice_already_closed_witness :
  let env1 := set_db (ended_store booked_store 13%N
                        (new_booking start_accessible noon) (noon + one_hour))
                booked_env in
  end_booking end_first 0 (noon + one_hour + 1) env1 = (AlreadyClosed, env1).
Proof.
  exact (end_twice_already_closed booked_env booked_store
           end_first 0 (noon + one_hour) _ _ eq_refl
           (end_booking_ok booked_env booked_store end_first 0 (noon + one_hour)
              13%N (Doc 13%N (new_booking start_accessible noon))
              eq_refl eq_refl eq_refl eq_refl eq_refl)
           [] end_first 0 (noon + one_hour + 1) eq_refl).
Defined.

(* ================================================================== *)
(** * The order of binary64 floats *)

Lemma SFltb_nan : forall x y,
  SFltb x y = true -> is_nan x = false /\ is_nan y = false.
Proof. intros [| | |] [| | |]; simpl; intros H; try discriminate; auto. Qed.

Lemma SFltb_rank : forall x y,
  is_nan x = false -> is_nan y = false ->
  (SFltb x y = true <-> rank_lt (rank x) (rank y)).
Proof.
  intros x y Hx Hy. unfold SFltb, SFcompare.
  destruct x as [sx|sx| |sx mx ex]; try discriminate Hx;
    destruct y as [sy|sy| |sy my ey]; try discriminate Hy;
    try destruct sx; try destruct sy; cbn [rank rank_lt];
    try (split; [intros H; try discriminate H; lia
                | intros H; try reflexivity; lia]).
  - rewrite Pos.compare_cont_spec. cbn [Pos.switch_Eq].
    destruct (Z.compare_spec ex ey); destruct (Pos.compare_spec mx my);
      cbn [CompOpp]; split; intros H'; try discriminate H'; try reflexivity; lia.
  - rewrite Pos.compare_cont_spec. cbn [Pos.switch_Eq].
    destruct (Z.compare_spec ex ey); destruct (Pos.compare_spec mx my);
      split; intros H'; try discriminate H'; try reflexivity; lia.
Qed.

Lemma rank_lt_trans : forall a b c, rank_lt a b -> rank_lt b c -> rank_lt a c.
Proof. intros [[a1 a2] a3] [[b1 b2] b3] [[c1 c2] c3]; unfold rank_lt; lia. Qed.

Lemma rank_lt_total : forall a b c, ~ rank_lt a b -> rank_lt c b -> rank_lt c a.
Proof. intros [[a1 a2] a3] [[b1 b2] b3] [[c1 c2] c3]; unfold rank_lt; lia. Qed.

Lemma rank_lt_asym : forall a b, rank_lt a b -> ~ rank_lt b a.
Proof. intros [[a1 a2] a3] [[b1 b2] b3]; unfold rank_lt; lia. Qed.

Lemma ltb_trans : forall a b c : float,
  (a <? b)%float = true -> (b <? c)%float = true -> (a <? c)%float = true.
Proof.
  intros a b c. rewrite !ltb_spec. intros Hab Hbc.
  destruct (SFltb_nan _ _ Hab) as [Ha Hb].
  destruct (SFltb_nan _ _ Hbc) as [_ Hc].
  apply SFltb_rank; auto.
  apply rank_lt_trans with (rank (Prim2SF b)); apply SFltb_rank; auto.
Qed.

Lemma ltb_asym : forall a b : float,
  (a <? b)%float = true -> (b <? a)%float = false.
Proof.
  intros a b. rewrite !ltb_spec. intros Hab.
  destruct (SFltb_nan _ _ Hab) as [Ha Hb].
  destruct (SFltb (Prim2SF b) (Prim2SF a)) eqn:E; [|reflexivity].
  exfalso. apply (rank_lt_asym (rank (Prim2SF a)) (rank (Prim2SF b)));
    apply SFltb_rank; auto.
Qed.

(** For [a] a number (below [+inf], hence not NaN): if [a] is not below [b]
    and [c] is below [b], then [c] is below [a]. *)
Lemma ltb_below : forall a b c : float,
  (a <? infinity)%float = true ->
  (a <? b)%float = false -> (c <? b)%float = true -> (c <? a)%float = true.
Proof.
  intros a b c. rewrite !ltb_spec. intros Ha Hab Hcb.
  destruct (SFltb_nan _ _ Ha) as [Ha' _].
  destruct (SFltb_nan _ _ Hcb) as [Hc Hb].
  apply SFltb_rank; auto.
  apply rank_lt_total with (rank (Prim2SF b)).
  - intros H. apply SFltb_rank in H; auto. congruence.
  - apply SFltb_rank; auto.
Qed.

(* ================================================================== *)
(** * Recommendation *)

Lemma filter_filter : forall A (p q : A -> bool) l,
  filter q (filter p l) = filter (fun x => p x && q x) l.
Proof.
  intros A p q l; induction l as [|x l IH]; simpl; [reflexivity|].
  destruct (p x); simpl; [destruct (q x)|]; rewrite ?IH; reflexivity.
Qed.

Lemma scan_spots : forall st req lot,
  (if truthy (RecommendationRequest.vehicle_type req)
   then filter (type_matches (RecommendationRequest.vehicle_type req))
          (filter (free_in_lot (ObjectId.str (_id lot))) (parkingspot_docs st))
   else filter (free_in_lot (ObjectId.str (_id lot))) (parkingspot_docs st))
  = candidates st req lot.
Proof.
  intros st req lot. unfold candidates.
  destruct (RecommendationRequest.vehicle_type req) as [v|] eqn:Hv; simpl.
  - destruct (v =? "")%string eqn:E; simpl.
    + apply filter_ext. intros s. unfold qualifies, free_in_lot.
      rewrite Hv, E. simpl. rewrite andb_true_r. reflexivity.
    + rewrite filter_filter. apply filter_ext. intros s.
      unfold qualifies, free_in_lot, type_matches. rewrite Hv, E. reflexivity.
  - apply filter_ext. intros s. unfold qualifies, free_in_lot.
    rewrite Hv, andb_true_r. reflexivity.
Qed.

Lemma find_ext : forall A (p q : A -> bool) l,
  (forall x, p x = q x) -> List.find p l = List.find q l.
Proof.
  intros A p q l H; induction l as [|x l IH]; simpl; [reflexivity|].
  rewrite H, IH. reflexivity.
Qed.

Lemma find_filter_head : forall A (p : A -> bool) l,
  List.find p l = hd_error (filter p l).
Proof.
  intros A p l; induction l as [|x l IH]; simpl; [reflexivity|].
  destruct (p x); [reflexivity | exact IH].
Qed.

Section Scan.

Variable libm : Libm.
Variable env : Env.
Variable st : Store.
Variable req : RecommendationRequest.t.
Hypothesis Hdb : db env = Some st.

Lemma score_of_fun : forall lot s s',
  score_of libm st req lot s -> score_of libm st req lot s' -> s = s'.
Proof.
  intros lot s s' [_ [d [Hd Hs]]] [_ [d' [Hd' Hs']]].
  rewrite Hd in Hd'. inversion Hd'; subst. reflexivity.
Qed.

Lemma recommend_scan_cons : forall lot rest best best_score chosen_spot,
  recommend_scan libm req (lot :: rest) best best_score chosen_spot env =
  match candidates st req lot with
  | [] => recommend_scan libm req rest best best_score chosen_spot env
  | first :: _ =>
      match distance_to libm req lot with
      | Some dist =>
          let score :=
            (dist - 0.05 * float_of_Z
               (Z.of_nat (List.length (candidates st req lot))))%float in
          if (score <? best_score)%float
          then recommend_scan libm req rest (Some lot) score (Some first) env
          else recommend_scan libm req rest best best_score chosen_spot env
      | None => (unhandled, env)
      end
  end.
Proof.
  intros lot rest best best_score chosen_spot.
  cbn [recommend_scan]. unfold bind at 1. unfold find at 1. rewrite Hdb.
  cbn [docs]. rewrite scan_spots.
  destruct (candidates st req lot) as [|first more]; [reflexivity|].
  unfold bind, lift_raising, distance_to.
  destruct (haversine libm _ _ _ _) as [dist|]; [|reflexivity].
  cbn zeta. destruct (_ <? best_score)%float; reflexivity.
Qed.

Lemma recommend_scan_inv : forall rest seen best best_score chosen_spot,
  scores_are_numbers libm st req (seen ++ rest) ->
  scan_inv libm st req seen (best, best_score, chosen_spot) ->
  exists final,
    recommend_scan libm req rest best best_score chosen_spot env = (Ok final, env)
    /\ scan_inv libm st req (seen ++ rest) final.
Proof.
  induction rest as [|lot rest IH]; intros seen best best_score chosen_spot Hnum Hinv.
  - exists (best, best_score, chosen_spot). rewrite app_nil_r. split; [reflexivity | exact Hinv].
  - rewrite recommend_scan_cons.
    replace (seen ++ lot :: rest) with ((seen ++ [lot]) ++ rest) in *
      by (rewrite <- app_assoc; reflexivity).
    destruct (candidates st req lot) as [|first more] eqn:Hc.
    + (* continue *)
      apply IH; [exact Hnum|].
      cbn [scan_inv] in *. destruct best as [b|].
      * destruct Hinv as [before [after [Hs [Hb [Hfin [Hch [Hsome [Hbef Haft]]]]]]]].
        exists before, (after ++ [lot]). subst seen.
        split; [rewrite <- app_assoc; reflexivity|].
        repeat (split; [assumption|]).
        intros l s Hin Hsc. apply in_app_or in Hin. destruct Hin as [Hin|[<-|[]]].
        -- eapply Haft; eauto.
        -- destruct Hsc as [Hne _]. congruence.
      * destruct Hinv as [Hbs [Hch Hnone]]. repeat (split; [assumption|]).
        intros l Hin. apply in_app_or in Hin. destruct Hin as [Hin|[<-|[]]]; auto.
    + assert (Hlot : exists s, score_of libm st req lot s /\ (s <? infinity)%float = true).
      { apply Hnum; [apply in_or_app; left; apply in_or_app; right; left; reflexivity|].
        rewrite Hc. discriminate. }
      destruct Hlot as [s [Hscore Hsfin]].
      pose proof Hscore as [_ [dist [Hdist Hs]]].
      rewrite Hdist. cbn zeta. rewrite Hc in Hs. rewrite <- Hs.
      destruct (s <? best_score)%float eqn:Hlt.
      * (* the lot becomes the best one *)
        apply IH; [exact Hnum|].
        cbn [scan_inv] in *. exists seen, []. split; [reflexivity|].
        split; [exact Hscore|]. split; [exact Hsfin|].
        split; [rewrite find_filter_head; fold (candidates st req lot);
                rewrite Hc; reflexivity|].
        split; [discriminate|].
        split; [|intros l s' []].
        intros l s' Hin Hsc. destruct best as [b|].
        -- destruct Hinv as [before [after [Hseen [Hb [Hfin [_ [_ [Hbef Haft]]]]]]]].
           subst seen. apply in_app_or in Hin. destruct Hin as [Hin|[<-|Hin]].
           ++ apply ltb_trans with best_score; [exact Hlt | eapply Hbef; eauto].
           ++ rewrite (score_of_fun _ _ _ Hsc Hb). exact Hlt.
           ++ apply ltb_below with best_score; [| eapply Haft; eauto | exact Hlt].
              pose proof Hsc as [Hne _].
              destruct (Hnum l) as [s2 [Hs2 Hfin2]];
                [apply in_or_app; left; apply in_or_app; left;
                 apply in_or_app; right; right; exact Hin | exact Hne |].
              rewrite (score_of_fun l s' s2 Hsc Hs2). exact Hfin2.
        -- destruct Hinv as [_ [_ Hnone]]. destruct Hsc as [Hne _].
           elim Hne. apply Hnone. exact Hin.
      * (* the best one stays *)
        apply IH; [exact Hnum|].
        cbn [scan_inv] in *. destruct best as [b|].
        -- destruct Hinv as [before [after [Hseen [Hb [Hfin [Hch [Hsome [Hbef Haft]]]]]]]].
           exists before, (after ++ [lot]). subst seen.
           split; [rewrite <- app_assoc; reflexivity|].
           repeat (split; [assumption|]).
           intros l s' Hin Hsc. apply in_app_or in Hin. destruct Hin as [Hin|[<-|[]]].
           ++ eapply Haft; eauto.
           ++ rewrite (score_of_fun _ _ _ Hsc Hscore). exact Hlt.
        -- destruct Hinv as [Hbs _]. subst best_score. congruence.
Qed.

End Scan.

Lemma filter_all : forall A (l : list A), filter (fun _ => true) l = l.
Proof. intros A l; induction l as [|x l IH]; simpl; congruence. Qed.

Lemma recommend_parking_run : forall libm env st req,
  db env = Some st ->
  recommend_parking libm req env =
  match parkinglot_docs st with
  | [] => (NoLotsAvailable, env)
  | _ :: _ =>
      match recommend_scan libm req (parkinglot_docs st) None infinity None env with
      | (Ok (Some best, _, chosen_spot), env') => (Ok (response_for best chosen_spot), env')
      | (Ok (None, _, _), env') => (NoSuitableSpot, env')
      | (HTTPException c d, env') => (HTTPException c d, env')
      end
  end.
Proof.
  intros libm env st req Hdb. unfold recommend_parking.
  unfold bind at 1. unfold require_db. rewrite Hdb.
  unfold bind at 1. unfold find at 1. rewrite Hdb. cbn [docs]. rewrite filter_all.
  destruct (parkinglot_docs st) as [|l ls]; [reflexivity|].
  unfold bind.
  destruct (recommend_scan libm req (l :: ls) None infinity None env)
    as [[[[[b|] bs] ch]|c d] env']; reflexivity.
Qed.

(** Without any assumption on the distances: the loop reads the store only,
    ends normally or on an uncaught exception, and a lot it selects comes
    with its first qualifying spot. *)
Lemma recommend_scan_sound : forall libm env st req,
  db env = Some st ->
  forall rest best best_score chosen_spot,
  exists r,
    recommend_scan libm req rest best best_score chosen_spot env = (r, env)
    /\ (r = unhandled
        \/ exists best' score' chosen',
             r = Ok (best', score', chosen')
             /\ ((best' = best /\ chosen' = chosen_spot)
                 \/ exists b spot,
                      best' = Some b /\ In b rest /\ chosen' = Some spot
                      /\ List.find (qualifies req b) (parkingspot_docs st) = Some spot)).
Proof.
  intros libm env st req Hdb.
  induction rest as [|lot rest IH]; intros best best_score chosen_spot.
  - eexists. split; [reflexivity|]. right. eauto 10.
  - rewrite (recommend_scan_cons libm env st req Hdb).
    destruct (candidates st req lot) as [|first more] eqn:Hc.
    + destruct (IH best best_score chosen_spot) as [r [Hr Hcases]].
      exists r. split; [exact Hr|].
      destruct Hcases as [->|[b' [s' [c' [-> [H|[b [spot [Hb [Hin H]]]]]]]]]];
        [left; reflexivity| |].
      * right. eauto 10.
      * right. exists b', s', c'. split; [reflexivity|]. right.
        exists b, spot. simpl. tauto.
    + destruct (distance_to libm req lot) as [dist|].
      2:{ eexists. split; [reflexivity|]. left. reflexivity. }
      cbn zeta. destruct (_ <? best_score)%float.
      * destruct (IH (Some lot) (dist - 0.05 * float_of_Z
                     (Z.of_nat (List.length (first :: more))))%float (Some first))
          as [r [Hr Hcases]].
        exists r. split; [exact Hr|].
        destruct Hcases as [->|[b' [s' [c' [-> [[H1 H2]|[b [spot [Hb [Hin H]]]]]]]]]];
          [left; reflexivity| |].
        -- right. exists b', s', c'. split; [reflexivity|]. right.
           exists lot, first. subst. simpl. repeat split; auto.
           rewrite find_filter_head. fold (candidates st req lot). rewrite Hc.
           reflexivity.
        -- right. exists b', s', c'. split; [reflexivity|]. right.
           exists b, spot. simpl. tauto.
      * destruct (IH best best_score chosen_spot) as [r [Hr Hcases]].
        exists r. split; [exact Hr|].
        destruct Hcases as [->|[b' [s' [c' [-> [H|[b [spot [Hb [Hin H]]]]]]]]]];
        [left; reflexivity| |].
        -- right. eauto 10.
        -- right. exists b', s', c'. split; [reflexivity|]. right.
           exists b, spot. simpl. tauto.
Qed.

Lemma recommend_scan_skips : forall libm env st req,
  db env = Some st ->
  forall rest best best_score chosen_spot,
    (forall lot, In lot rest -> candidates st req lot = []) ->
    recommend_scan libm req rest best best_score chosen_spot env
    = (Ok (best, best_score, chosen_spot), env).
Proof.
  intros libm env st req Hdb.
  induction rest as [|lot rest IH]; intros best best_score chosen_spot Hnone.
  - reflexivity.
  - rewrite (recommend_scan_cons libm env st req Hdb).
    rewrite (Hnone lot) by (left; reflexivity).
    apply IH. intros l Hin. apply Hnone. right. exact Hin.
Qed.

Lemma recommend_read_only : forall libm env st req,
  db env = Some st -> snd (recommend_parking libm req env) = env.
Proof.
  intros libm env st req Hdb. rewrite (recommend_parking_run libm env st req Hdb).
  destruct (parkinglot_docs st) as [|l ls]; [reflexivity|].
  destruct (recommend_scan_sound libm env st req Hdb (l :: ls) None infinity None)
    as [r [Hr _]].
  rewrite Hr. destruct r as [[[[b|] bs] ch]|c d]; reflexivity.
Qed.

Lemma ltb_irrefl : forall a : float, (a <? a)%float = false.
Proof.
  intros a. destruct (a <? a)%float eqn:E; [|reflexivity].
  pose proof (ltb_asym a a E) as E'. congruence.
Qed.

(** C1, amended. [recommend] fails with "no lots" exactly when the store
    holds no lot.  When every lot that has a qualifying spot has a numeric score
    (distance minus 0.05 per qualifying spot, below [+inf]), it fails with
    "no suitable spot" exactly when lots exist and none has a qualifying spot,
    and otherwise returns a lot [b] such that no lot scores lower, every
    earlier lot with a score scores strictly higher (ties go to the first
    lot), together with the first qualifying spot of [b]. *)
Theorem recommend_minimizes : forall libm env st req,
  db env = Some st ->
  (fst (recommend_parking libm req env) = NoLotsAvailable
   <-> parkinglot_docs st = [])
  /\ (scores_are_numbers libm st req (parkinglot_docs st) ->
      (fst (recommend_parking libm req env) = NoSuitableSpot
       <-> parkinglot_docs st <> []
           /\ forall lot, In lot (parkinglot_docs st) -> candidates st req lot = [])
      /\ ((exists lot, In lot (parkinglot_docs st) /\ candidates st req lot <> []) ->
          exists before b after spot score,
            parkinglot_docs st = before ++ b :: after
            /\ score_of libm st req b score
            /\ (forall lot s, In lot (parkinglot_docs st) ->
                  score_of libm st req lot s -> (s <? score)%float = false)
            /\ (forall lot s, In lot before ->
                  score_of libm st req lot s -> (score <? s)%float = true)
            /\ List.find (qualifies req b) (parkingspot_docs st) = Some spot
            /\ recommend_parking libm req env
               = (Ok {| RecommendationResponse.lot_id := ObjectId.str (_id b);
                        RecommendationResponse.lot_name := ParkingLot.name (fields b);
                        RecommendationResponse.spot_id := Some (ObjectId.str (_id spot));
                        RecommendationResponse.spot_number :=
                          Some (ParkingSpot.spot_number (fields spot));
                        RecommendationResponse.reason :=
                          "Closest lot with available matching spots" |},
                  env))).
Proof.
  intros libm env st req Hdb.
  rewrite (recommend_parking_run libm env st req Hdb).
  split.
  - destruct (parkinglot_docs st) as [|l ls] eqn:Hl; [split; reflexivity|].
    destruct (recommend_scan_sound libm env st req Hdb (l :: ls) None infinity None)
      as [r [Hr Hcases]].
    rewrite Hr. split; [|discriminate].
    destruct Hcases as [->|[b' [s' [c' [-> _]]]]]; [discriminate|].
    destruct b'; discriminate.
  - intros Hnum.
    destruct (parkinglot_docs st) as [|l ls] eqn:Hl.
    { split.
      - split; [discriminate | intros [H _]; congruence].
      - intros [lot [[] _]]. }
    destruct (recommend_scan_inv libm env st req Hdb (l :: ls) [] None infinity None)
      as [[[best bs] ch] [Hrun Hinv]].
    { exact Hnum. }
    { cbn. repeat split; auto. intros lot []. }
    rewrite Hrun. cbn [app scan_inv] in Hinv.
    destruct best as [b|].
    + destruct Hinv as [before [after [Hdec [Hb [Hfin [Hch [Hsome [Hbef Haft]]]]]]]].
      split.
      * split; [discriminate|]. intros [_ Hnone]. destruct Hb as [Hne _].
        elim Hne. apply Hnone. rewrite Hdec. apply in_or_app. right. left. reflexivity.
      * intros _. destruct ch as [spot|]; [|congruence].
        exists before, b, after, spot, bs.
        split; [exact Hdec|]. split; [exact Hb|].
        split.
        { intros lot s Hin Hsc. rewrite Hdec in Hin. apply in_app_or in Hin.
          destruct Hin as [Hin|[<-|Hin]].
          - apply ltb_asym. eapply Hbef; eauto.
          - rewrite (score_of_fun _ _ _ _ _ _ Hsc Hb). apply ltb_irrefl.
          - eapply Haft; eauto. }
        split; [exact Hbef|]. split; [symmetry; exact Hch|]. reflexivity.
    + destruct Hinv as [_ [_ Hnone]]. split.
      * split; [intros _; split; [discriminate | exact Hnone] | reflexivity].
      * intros [lot [Hin Hne]]. elim Hne. apply Hnone. exact Hin.
Qed.

Lemma update_first_nil : forall A o (f : A -> A) (l : list (document A)),
  update_first o f l <> [] -> l <> [].
Proof. intros A o f [|d l] H; [exact H | discriminate]. Qed.

Lemma lots_behind_spots_step : forall st st',
  lots_behind_spots st -> store_step st st' -> lots_behind_spots st'.
Proof.
  intros st st' Hl Hstep.
  destruct Hstep as [|_|req now lo o spot _ _ _ _|o b now _ _]; unfold lots_behind_spots.
  - exact Hl.
  - cbn [seeded_store parkinglot_docs]. intros _ H.
    apply app_eq_nil in H. destruct H as [_ H]. discriminate H.
  - cbn [started_store parkinglot_docs parkingspot_docs]. intros H.
    apply Hl. eapply update_first_nil. exact H.
  - cbn [ended_store parkinglot_docs parkingspot_docs].
    destruct (ObjectId (Booking.spot_id (fields b))); [|exact Hl].
    intros H. apply Hl. eapply update_first_nil. exact H.
Qed.

Lemma recommend_selected : forall libm env st req resp,
  db env = Some st ->
  fst (recommend_parking libm req env) = Ok resp ->
  exists b spot,
    In b (parkinglot_docs st)
    /\ List.find (qualifies req b) (parkingspot_docs st) = Some spot
    /\ resp = response_for b (Some spot).
Proof.
  intros libm env st req resp Hdb H.
  rewrite (recommend_parking_run libm env st req Hdb) in H.
  destruct (parkinglot_docs st) as [|l ls] eqn:Hl; [discriminate H|].
  destruct (recommend_scan_sound libm env st req Hdb (l :: ls) None infinity None)
    as [r [Hr Hcases]].
  rewrite Hr in H.
  destruct Hcases as [->|[b' [s' [c' [-> [[-> ->]|[b [spot [-> [Hin [-> Hfind]]]]]]]]]]];
    try discriminate H.
  exists b, spot. simpl in H. inversion H. auto.
Qed.

(** C6. With a non-empty [vehicle_type] filter, a spot returned by
    [recommend] is an unoccupied spot of the store whose category equals the
    filter; and when every spot of that category is occupied the call fails
    with 404, whatever unoccupied spots of other categories remain: it is "No
    suitable spots found" as soon as a lot exists, hence in every reachable
    state that has a spot of the category. *)
Theorem recommend_respects_filter : forall libm env st req v,
  db env = Some st ->
  RecommendationRequest.vehicle_type req = Some v ->
  v <> ""%string ->
  (forall resp,
     fst (recommend_parking libm req env) = Ok resp ->
     exists spot,
       In spot (parkingspot_docs st)
       /\ RecommendationResponse.spot_id resp = Some (ObjectId.str (_id spot))
       /\ RecommendationResponse.spot_number resp
          = Some (ParkingSpot.spot_number (fields spot))
       /\ ParkingSpot.vehicle_type (fields spot) = v
       /\ ParkingSpot.is_occupied (fields spot) = false)
  /\ ((forall spot, In spot (parkingspot_docs st) ->
         ParkingSpot.vehicle_type (fields spot) = v ->
         ParkingSpot.is_occupied (fields spot) = true) ->
      status_of (fst (recommend_parking libm req env)) = 404
      /\ (parkinglot_docs st <> [] ->
          recommend_parking libm req env = (NoSuitableSpot, env))
      /\ (reachable env ->
          (exists spot, In spot (parkingspot_docs st)
                        /\ ParkingSpot.vehicle_type (fields spot) = v) ->
          recommend_parking libm req env = (NoSuitableSpot, env))).
Proof.
  intros libm env st req v Hdb Hv Hne. split.
  - intros resp H.
    destruct (recommend_selected libm env st req resp Hdb H)
      as [b [spot [_ [Hfind ->]]]].
    apply find_some in Hfind. destruct Hfind as [Hin Hq].
    exists spot. split; [exact Hin|]. split; [reflexivity|]. split; [reflexivity|].
    unfold qualifies in Hq. rewrite Hv in Hq.
    apply andb_prop in Hq. destruct Hq as [Hq Hty].
    apply andb_prop in Hq. destruct Hq as [_ Hfree].
    apply String.eqb_neq in Hne. rewrite Hne in Hty. simpl in Hty.
    apply String.eqb_eq in Hty. apply negb_true_iff in Hfree. auto.
  - intros Hocc.
    assert (Hnone : forall lot, candidates st req lot = []).
    { intros lot. unfold candidates.
      destruct (filter (qualifies req lot) (parkingspot_docs st)) as [|s l] eqn:Hf;
        [reflexivity|].
      assert (Hs : In s (filter (qualifies req lot) (parkingspot_docs st)))
        by (rewrite Hf; left; reflexivity).
      apply filter_In in Hs. destruct Hs as [Hin Hq].
      unfold qualifies in Hq. rewrite Hv in Hq.
      apply andb_prop in Hq. destruct Hq as [Hq Hty].
      apply andb_prop in Hq. destruct Hq as [_ Hfree].
      apply String.eqb_neq in Hne. rewrite Hne in Hty. simpl in Hty.
      apply String.eqb_eq in Hty. apply negb_true_iff in Hfree.
      rewrite (Hocc s Hin Hty) in Hfree. discriminate Hfree. }
    assert (Hlots : parkinglot_docs st <> [] ->
                    recommend_parking libm req env = (NoSuitableSpot, env)).
    { intros Hl. rewrite (recommend_parking_run libm env st req Hdb).
      destruct (parkinglot_docs st) as [|l ls]; [congruence|].
      rewrite (recommend_scan_skips libm env st req Hdb) by (intros; apply Hnone).
      reflexivity. }
    split; [|split; [exact Hlots|]].
    + destruct (parkinglot_docs st) as [|l ls] eqn:Hl.
      * rewrite (recommend_parking_run libm env st req Hdb), Hl. reflexivity.
      * rewrite Hlots by discriminate. reflexivity.
    + intros Hreach [spot [Hin _]]. apply Hlots.
      destruct (reachable_invariant lots_behind_spots) with (env := env)
        as [st' [Hdb' [_ Hls]]].
      * intros H. elim H. reflexivity.
      * exact lots_behind_spots_step.
      * exact Hreach.
      * rewrite Hdb in Hdb'. inversion Hdb'; subst st'. apply Hls.
        intros E. rewrite E in Hin. destruct Hin.
Qed.

Lemma recommend_scan_empty_filter : forall libm lat lng lots best best_score chosen_spot env,
  recommend_scan libm (RecommendationRequest.Build lat lng (Some ""%string))
    lots best best_score chosen_spot env
  = recommend_scan libm (RecommendationRequest.Build lat lng None)
      lots best best_score chosen_spot env.
Proof.
  intros libm lat lng lots.
  induction lots as [|lot rest IH]; intros best best_score chosen_spot env.
  - reflexivity.
  - cbn [recommend_scan RecommendationRequest.vehicle_type RecommendationRequest.lat
         RecommendationRequest.lng truthy String.eqb negb].
    apply bind_ext. intros spots env'.
    destruct spots as [|first more]; [apply IH|].
    apply bind_ext. intros dist env''.
    cbn zeta. destruct (_ <? best_score)%float; apply IH.
Qed.

(** C10. A request whose [vehicle_type] is the empty string is served
    exactly as one without [vehicle_type]: no category test is made, and the
    spot returned is the first unoccupied spot of the chosen lot whatever its
    category. *)
Theorem recommend_empty_filter : forall libm lat lng env,
  recommend_parking libm (RecommendationRequest.Build lat lng (Some ""%string)) env
  = recommend_parking libm (RecommendationRequest.Build lat lng None) env
  /\ forall st resp,
       db env = Some st ->
       fst (recommend_parking libm
              (RecommendationRequest.Build lat lng (Some ""%string)) env) = Ok resp ->
       exists b spot,
         In b (parkinglot_docs st)
         /\ List.find (free_in_lot (ObjectId.str (_id b))) (parkingspot_docs st)
            = Some spot
         /\ RecommendationResponse.spot_id resp = Some (ObjectId.str (_id spot)).
Proof.
  intros libm lat lng env. split.
  - unfold recommend_parking.
    apply bind_ext. intros _ env1. apply bind_ext. intros lots env2.
    destruct lots as [|l ls]; [reflexivity|].
    unfold bind. rewrite recommend_scan_empty_filter. reflexivity.
  - intros st resp Hdb H.
    destruct (recommend_selected libm env st _ resp Hdb H)
      as [b [spot [Hin [Hfind ->]]]].
    exists b, spot. split; [exact Hin|]. split; [|reflexivity].
    rewrite <- Hfind. apply find_ext. intros s0.
    unfold qualifies, free_in_lot. simpl. rewrite andb_true_r. reflexivity.
Qed.

(** The scores of the three lots of the city: the far lot, enumerated
    first, scores higher; the demo lot and the annex tie. *)
Lemma city_scores :
  score_of sample_libm city_store (near_downtown None) (Doc 20%N oakland_lot)
    11.89455861782643
  /\ score_of sample_libm city_store (near_downtown None) (Doc 0%N demo_lot)
       0.4020557042865176
  /\ score_of sample_libm city_store (near_downtown None) (Doc 40%N annex_lot)
       0.4020557042865176.
Proof.
  split; [|split]; (split; [vm_compute; discriminate|]);
    eexists; (split; [vm_compute; reflexivity | vm_compute; reflexivity]).
Qed.

Lemma city_scores_are_numbers :
  scores_are_numbers sample_libm city_store (near_downtown None)
    (parkinglot_docs city_store).
Proof.
  destruct city_scores as [Ho [Hd Ha]].
  intros lot [<-|[<-|[<-|[]]]] _.
  - exists 11.89455861782643%float. split; [exact Ho | vm_compute; reflexivity].
  - exists 0.4020557042865176%float. split; [exact Hd | vm_compute; reflexivity].
  - exists 0.4020557042865176%float. split; [exact Ha | vm_compute; reflexivity].
Qed.

Lemma near_downtown_unfiltered :
  recommend_parking small_angle_libm (near_downtown (Some ""%string)) demo_env
  = (Ok {| RecommendationResponse.lot_id := demo_lot_id;
           RecommendationResponse.lot_name := "Downtown Central";
           RecommendationResponse.spot_id := Some "000000000000000000000001"%string;
           RecommendationResponse.spot_number := Some "1"%string;
           RecommendationResponse.reason :=
             "Closest lot with available matching spots" |},
     demo_env).
Proof. vm_compute. reflexivity. Qed.

Lemma recommend_minimizes_witness :
  db city_env = Some city_store
  /\ scores_are_numbers sample_libm city_store (near_downtown None)
       (parkinglot_docs city_store)
  /\ score_of sample_libm city_store (near_downtown None) (Doc 20%N oakland_lot)
       11.89455861782643
  /\ score_of sample_libm city_store (near_downtown None) (Doc 0%N demo_lot)
       0.4020557042865176
  /\ score_of sample_libm city_store (near_downtown None) (Doc 40%N annex_lot)
       0.4020557042865176
  /\ recommend_parking sample_libm (near_downtown None) city_env
     = (Ok {| RecommendationResponse.lot_id := demo_lot_id;
              RecommendationResponse.lot_name := "Downtown Central";
              RecommendationResponse.spot_id := Some "000000000000000000000001"%string;
              RecommendationResponse.spot_number := Some "1"%string;
              RecommendationResponse.reason :=
                "Closest lot with available matching spots" |},
        city_env).
Proof.
  destruct city_scores as [Ho [Hd Ha]].
  split; [reflexivity|]. split; [exact city_scores_are_numbers|].
  split; [exact Ho|]. split; [exact Hd|]. split; [exact Ha|].
  destruct (proj2 (proj2 (recommend_minimizes sample_libm city_env city_store
                            (near_downtown None) eq_refl)
                     city_scores_are_numbers))
    as [before [b [after [spot [score [Hdec [Hb [Hmin [Hfirst [Hfind Hrun]]]]]]]]]].
  - exists (Doc 0%N demo_lot).
    split; [right; left; reflexivity | vm_compute; discriminate].
  - cbn [city_store parkinglot_docs] in Hdec.
    destruct before as [|x1 [|x2 [|x3 before]]]; simpl in Hdec.
    + (* the far lot, enumerated first, does not win: the demo lot scores lower *)
      inversion Hdec; subst b after.
      pose proof (score_of_fun _ _ _ _ _ _ Hb Ho) as E. subst score.
      specialize (Hmin (Doc 0%N demo_lot) _ (or_intror (or_introl eq_refl)) Hd).
      vm_compute in Hmin. discriminate Hmin.
    + inversion Hdec; subst x1 b after.
      vm_compute in Hfind. inversion Hfind; subst spot. exact Hrun.
    + (* the annex ties with the demo lot, which is enumerated before it *)
      inversion Hdec; subst x1 x2 b after.
      pose proof (score_of_fun _ _ _ _ _ _ Hb Ha) as E. subst score.
      specialize (Hfirst (Doc 0%N demo_lot) _ (or_intror (or_introl eq_refl)) Hd).
      vm_compute in Hfirst. discriminate Hfirst.
    + inversion Hdec. destruct before; discriminate.
Defined.

Lemma recommend_respects_filter_witness :
  recommend_parking small_angle_libm (near_downtown (Some "accessible"%string)) booked_env
  = (NoSuitableSpot, booked_env).
Proof.
  refine (proj1 (proj2 (proj2 (recommend_respects_filter small_angle_libm
                                 booked_env booked_store
                                 (near_downtown (Some "accessible"%string))
                                 "accessible"%string eq_refl eq_refl _) _)) _).
  - discriminate.
  - intros spot Hin Hty. vm_compute in Hin.
    repeat (destruct Hin as [<-|Hin];
            [first [reflexivity | vm_compute in Hty; discriminate Hty]|]).
    destruct Hin.
  - vm_compute. discriminate.
Defined.

Lemma ev_spots_taken :
  fst (recommend_parking small_angle_libm (near_downtown (Some "ev"%string)) ev_full_env)
  = NoSuitableSpot
  /\ status_of (fst (recommend_parking small_angle_libm (near_downtown None) ev_full_env))
     = 200
  /\ fst (recommend_parking small_angle_libm (near_downtown (Some "ev"%string)) demo_env)
     = Ok {| RecommendationResponse.lot_id := demo_lot_id;
             RecommendationResponse.lot_name := "Downtown Central";
             RecommendationResponse.spot_id := Some "000000000000000000000003"%string;
             RecommendationResponse.spot_number := Some "3"%string;
             RecommendationResponse.reason :=
               "Closest lot with available matching spots" |}.
Proof. vm_compute. repeat split; reflexivity. Qed.

Lemma ended_at_once :
  fst (end_booking end_first 0 noon booked_env)
  = Ok {| EndBookingResult.duration_minutes := 0;
          EndBookingResult.amount_due := 0;
          EndBookingResult.currency := "USD" |}.
Proof. vm_compute. reflexivity. Qed.

(** ** A latitude that is not a number *)

Lemma sub_nan_r : forall x : float, (x - nan)%float = nan.
Proof.
  intros x. apply Prim2SF_inj. rewrite sub_spec.
  change (Prim2SF nan) with S754_nan.
  destruct (Prim2SF x) as [s|s| |s m e]; reflexivity.
Qed.

Lemma add_nan_l : forall x : float, (nan + x)%float = nan.
Proof.
  intros x. apply Prim2SF_inj. rewrite add_spec.
  change (Prim2SF nan) with S754_nan.
  destruct (Prim2SF x) as [s|s| |s m e]; reflexivity.
Qed.

Lemma nan_sub_ltb : forall x y : float, (nan - x <? y)%float = false.
Proof.
  intros x y. rewrite ltb_spec, sub_spec.
  change (Prim2SF nan) with S754_nan.
  destruct (Prim2SF x) as [s|s| |s m e]; reflexivity.
Qed.

Lemma haversine_nan : forall libm lon1 lat2 lon2,
  sin libm nan = Some nan ->
  pow libm nan 2 = Some nan ->
  atan2 libm nan nan = Some nan ->
  haversine libm nan lon1 lat2 lon2 = Some nan
  \/ haversine libm nan lon1 lat2 lon2 = None.
Proof.
  intros libm lon1 lat2 lon2 Hsin Hpow Hatan. unfold haversine.
  rewrite sub_nan_r.
  change (radians nan / 2)%float with nan. rewrite Hsin. cbn [obind].
  rewrite Hpow. cbn [obind].
  destruct (cos libm (radians nan)) as [c1|]; [|right; reflexivity]. cbn [obind].
  destruct (cos libm (radians lat2)) as [c2|]; [|right; reflexivity]. cbn [obind].
  destruct (sin libm (radians (lon2 - lon1) / 2)) as [s2|]; [|right; reflexivity].
  cbn [obind].
  destruct (pow libm s2 2) as [p2|]; [|right; reflexivity]. cbn [obind].
  rewrite add_nan_l.
  change (math_sqrt nan) with (Some nan).
  change (math_sqrt (1 - nan)) with (Some nan). cbn [obind].
  rewrite Hatan. left. reflexivity.
Qed.

(** C1, as stated, fails on a request whose latitude is NaN: the demo lot
    has twelve qualifying spots, yet no lot is returned.  With a C library
    that maps NaN to NaN the distance is NaN, the comparison with the best
    score is false, and the answer is 404 "No suitable spots found". *)
Lemma recommend_nan_refuted :
  parkinglot_docs demo_store <> []
  /\ List.length (candidates demo_store nan_request (Doc 0%N demo_lot)) = 12%nat
  /\ recommend_parking small_angle_libm nan_request demo_env
     = (NoSuitableSpot, demo_env)
  /\ (forall libm,
        sin libm nan = Some nan ->
        pow libm nan 2 = Some nan ->
        atan2 libm nan nan = Some nan ->
        fst (recommend_parking libm nan_request demo_env) = NoSuitableSpot
        \/ fst (recommend_parking libm nan_request demo_env) = unhandled).
Proof.
  split; [discriminate|]. split; [vm_compute; reflexivity|].
  split; [vm_compute; reflexivity|].
  intros libm Hsin Hpow Hatan.
  rewrite (recommend_parking_run libm demo_env demo_store nan_request eq_refl).
  cbn [parkinglot_docs demo_store].
  rewrite (recommend_scan_cons libm demo_env demo_store nan_request eq_refl).
  destruct (candidates demo_store nan_request (Doc 0%N demo_lot)) as [|first more] eqn:Hc;
    [vm_compute in Hc; discriminate Hc|].
  change (distance_to libm nan_request (Doc 0%N demo_lot))
    with (haversine libm nan (-122.41) 37.7749 (-122.4194)).
  destruct (haversine_nan libm (-122.41) 37.7749 (-122.4194) Hsin Hpow Hatan)
    as [H|H]; rewrite H.
  - cbn zeta. rewrite nan_sub_ltb. left. reflexivity.
  - right. reflexivity.
Qed.

Lemma recommend_empty_filter_witness :
  exists b spot,
    In b (parkinglot_docs demo_store)
    /\ List.find (free_in_lot (ObjectId.str (_id b))) (parkingspot_docs demo_store)
       = Some spot
    /\ Some "000000000000000000000001"%string = Some (ObjectId.str (_id spot)).
Proof.
  exact (proj2 (recommend_empty_filter small_angle_libm 37.78 (-122.41) demo_env)
           demo_store
           {| RecommendationResponse.lot_id := demo_lot_id;
              RecommendationResponse.lot_name := "Downtown Central";
              RecommendationResponse.spot_id := Some "000000000000000000000001"%string;
              RecommendationResponse.spot_number := Some "1"%string;
              RecommendationResponse.reason :=
                "Closest lot with available matching spots" |}
           eq_refl
           (f_equal fst near_downtown_unfiltered)).
Defined.

(* ================================================================== *)
(** * Spot categories *)

Lemma valid_vehicle_type : forall s,
  ParkingSpot.valid s = true <->
  In (ParkingSpot.vehicle_type s) ["car"; "motorcycle"; "ev"; "accessible"]%string.
Proof.
  intros s. unfold ParkingSpot.valid, ParkingSpot.vehicle_types. cbn [existsb In].
  rewrite !orb_true_iff, !String.eqb_eq. split.
  - intros [H|[H|[H|[H|H]]]]; try discriminate H; auto.
  - intros [H|[H|[H|[H|[]]]]]; auto.
Qed.

Lemma demo_spots_valid : forall lot_id ns o d,
  forallb demo_vtype_ok ns = true ->
  In d (demo_spots lot_id o ns) -> ParkingSpot.valid (fields d) = true.
Proof.
  intros lot_id ns; induction ns as [|i ns IH]; intros o d Hok Hin; [destruct Hin|].
  simpl in Hok. apply andb_prop in Hok. destruct Hok as [Hi Hns].
  destruct Hin as [<-|Hin]; [exact Hi | eapply IH; eauto].
Qed.

Lemma in_update_occupied_valid : forall o b l d,
  (forall d0, In d0 l -> ParkingSpot.valid (fields d0) = true) ->
  In d (update_first o (ParkingSpot.set_is_occupied b) l) ->
  ParkingSpot.valid (fields d) = true.
Proof.
  intros o b l d Hl Hin. apply in_update_first in Hin.
  destruct Hin as [Hin|[d0 [Hin ->]]]; [apply Hl; exact Hin|].
  exact (Hl d0 Hin).
Qed.

Lemma spots_valid_step : forall st st',
  spots_valid st -> store_step st st' -> spots_valid st'.
Proof.
  intros st st' Hv Hstep.
  destruct Hstep as [|Hl|req now lo o spot _ _ _ _|o b now _ _]; unfold spots_valid.
  - exact Hv.
  - cbn [seeded_store parkingspot_docs]. intros d Hin.
    apply in_app_or in Hin. destruct Hin as [Hin|Hin]; [apply Hv; exact Hin|].
    eapply demo_spots_valid; [|exact Hin]. vm_compute. reflexivity.
  - cbn [started_store parkingspot_docs]. intros d Hin.
    eapply in_update_occupied_valid; [exact Hv | exact Hin].
  - cbn [ended_store parkingspot_docs]. intros d Hin.
    destruct (ObjectId (Booking.spot_id (fields b))); [|apply Hv; exact Hin].
    eapply in_update_occupied_valid; [exact Hv | exact Hin].
Qed.

(** C9, amended. [ParkingSpot] accepts a spot exactly when its category
    tag is one of "car", "motorcycle", "ev" and "accessible", and every spot
    of every reachable store carries one of these four. *)
Theorem spot_category_closed :
  (forall s, is_ok (ParkingSpot.new s) = true
             <-> In (ParkingSpot.vehicle_type s)
                   ["car"; "motorcycle"; "ev"; "accessible"]%string)
  /\ (forall env st d,
        reachable env ->
        db env = Some st ->
        In d (parkingspot_docs st) ->
        In (ParkingSpot.vehicle_type (fields d))
          ["car"; "motorcycle"; "ev"; "accessible"]%string).
Proof.
  split.
  - intros s. rewrite <- valid_vehicle_type. unfold ParkingSpot.new.
    destruct (ParkingSpot.valid s); simpl; split; congruence.
  - intros env st d Hreach Hdb Hin.
    destruct (reachable_invariant spots_valid) with (env := env)
      as [st' [Hdb' [_ Hv]]].
    + intros d0 [].
    + exact spots_valid_step.
    + exact Hreach.
    + rewrite Hdb in Hdb'. inversion Hdb'; subst st'.
      apply valid_vehicle_type. apply Hv. exact Hin.
Qed.

Lemma demo_env_reachable : reachable demo_env.
Proof. exists [Seed]. vm_compute. reflexivity. Qed.

Lemma booked_env_reachable : reachable booked_env.
Proof. exists [Seed; Start start_accessible noon]. vm_compute. reflexivity. Qed.

Lemma spot_category_closed_witness :
  In (ParkingSpot.vehicle_type (ParkingSpot.Build demo_lot_id "3" "ev" false))
    ["car"; "motorcycle"; "ev"; "accessible"]%string.
Proof.
  apply (proj2 spot_category_closed demo_env demo_store
           (Doc 3%N (ParkingSpot.Build demo_lot_id "3" "ev" false))
           demo_env_reachable eq_refl).
  vm_compute. auto.
Defined.

(** C9, as stated, fails: the first spot [seed] stores carries the tag
    "car", which is none of standard, motorcycle, electric and accessible; and
    [ParkingSpot] rejects a spot tagged "standard" or "electric". *)
Lemma spot_category_names_refuted :
  ~ (forall env st d,
       reachable env ->
       db env = Some st ->
       In d (parkingspot_docs st) ->
       In (ParkingSpot.vehicle_type (fields d)) spec_categories)
  /\ is_ok (ParkingSpot.new (ParkingSpot.Build demo_lot_id "1" "standard" false))
     = false
  /\ is_ok (ParkingSpot.new (ParkingSpot.Build demo_lot_id "3" "electric" false))
     = false.
Proof.
  split; [|split; reflexivity].
  intros H.
  specialize (H demo_env demo_store
                (Doc 1%N (ParkingSpot.Build demo_lot_id "1" "car" false))
                demo_env_reachable eq_refl (or_introl eq_refl)).
  cbn in H. repeat destruct H as [H|H]; try discriminate H. exact H.
Qed.

(* ================================================================== *)
(** * Occupancy and active bookings *)

Lemma ids_below_weaken : forall A (l : list (document A)) n m,
  (n <= m)%N -> ids_below n l -> ids_below m l.
Proof. intros A l n m Hle H d Hin. specialize (H d Hin). lia. Qed.

Lemma ids_below_update_first : forall A o (f : A -> A) (l : list (document A)) n,
  ids_below n l -> ids_below n (update_first o f l).
Proof.
  intros A o f l n H d Hin. apply in_update_first in Hin.
  destruct Hin as [Hin|[d0 [Hin ->]]]; [apply H; exact Hin | exact (H d0 Hin)].
Qed.

Lemma demo_spots_ids : forall lot_id ns o d,
  In d (demo_spots lot_id o ns) ->
  (o <= _id d < o + N.of_nat (List.length ns))%N
  /\ ParkingSpot.is_occupied (fields d) = false.
Proof.
  intros lot_id ns; induction ns as [|i ns IH]; intros o d Hin; [destruct Hin|].
  destruct Hin as [<-|Hin].
  - cbn [_id fields ParkingSpot.is_occupied List.length]. split; [lia | reflexivity].
  - destruct (IH _ _ Hin) as [Hr Hf]. cbn [List.length]. split; [lia | exact Hf].
Qed.

Lemma demo_spots_nodup : forall lot_id ns o,
  NoDup (map (@_id ParkingSpot.t) (demo_spots lot_id o ns)).
Proof.
  intros lot_id ns; induction ns as [|i ns IH]; intros o; simpl; constructor.
  - intros Hin. apply in_map_iff in Hin. destruct Hin as [d [Hid Hin]].
    destruct (demo_spots_ids _ _ _ _ Hin) as [Hr _]. lia.
  - apply IH.
Qed.

Lemma nodup_app_below : forall (l l' : list ObjectId.t) n,
  NoDup l -> NoDup l' ->
  (forall o, In o l -> (o < n)%N) -> (forall o, In o l' -> (n <= o)%N) ->
  NoDup (l ++ l').
Proof.
  intros l l' n Hl Hl' Hlt Hge. induction l as [|x l IH]; simpl; [exact Hl'|].
  inversion Hl; subst. constructor.
  - intros Hin. apply in_app_or in Hin. destruct Hin as [Hin|Hin]; [contradiction|].
    specialize (Hlt x (or_introl eq_refl)). specialize (Hge x Hin). lia.
  - apply IH; [assumption | intros o Ho; apply Hlt; right; exact Ho].
Qed.

(** Replacing the first document under [o] changes a count by that
    document alone. *)
Lemma count_update_first : forall A (p : document A -> bool) o (f : A -> A) l b,
  List.find (has_id o) l = Some b ->
  (List.length (filter p (update_first o f l)) + (if p b then 1 else 0)
   = List.length (filter p l) + (if p (Doc (_id b) (f (fields b))) then 1 else 0))%nat.
Proof.
  intros A p o f l b; induction l as [|d l IH]; intros Hfind; [discriminate Hfind|].
  simpl in Hfind. simpl. destruct (has_id o d) eqn:E.
  - inversion Hfind; subst d. simpl.
    destruct (p b); destruct (p (Doc (_id b) (f (fields b)))); simpl; lia.
  - simpl. specialize (IH Hfind). destruct (p d); simpl; lia.
Qed.

Lemma consistent_empty : consistent empty_store.
Proof.
  constructor; simpl.
  - constructor.
  - intros d [].
  - intros d [].
  - intros o. reflexivity.
Qed.

Lemma consistent_seed : forall st, consistent st -> consistent (seeded_store st).
Proof.
  intros st [Hnd Hsb Hbb Hrefs]. constructor; cbn [seeded_store parkingspot_docs
    booking_docs next_id].
  - rewrite map_app. apply nodup_app_below with (n := next_id st).
    + exact Hnd.
    + apply demo_spots_nodup.
    + intros o Hin. apply in_map_iff in Hin. destruct Hin as [d [<- Hin]].
      apply Hsb. exact Hin.
    + intros o Hin. apply in_map_iff in Hin. destruct Hin as [d [<- Hin]].
      destruct (demo_spots_ids _ _ _ _ Hin) as [Hr _]. lia.
  - intros d Hin. apply in_app_or in Hin. destruct Hin as [Hin|Hin].
    + specialize (Hsb d Hin). lia.
    + destruct (demo_spots_ids _ _ _ _ Hin) as [Hr _].
      change (N.of_nat (List.length (range 1 13))) with 12%N in Hr. lia.
  - apply ids_below_weaken with (n := next_id st); [lia | exact Hbb].
  - intros o. specialize (Hrefs o). unfold active_refs, occupied in *.
    cbn [seeded_store parkingspot_docs booking_docs]. rewrite find_app.
    destruct (List.find (has_id o) (parkingspot_docs st)) as [s|]; [exact Hrefs|].
    destruct (List.find (has_id o) (demo_spots _ _ _)) as [s|] eqn:E; [|exact Hrefs].
    apply find_has_id in E. destruct E as [_ Hin].
    destruct (demo_spots_ids _ _ _ _ Hin) as [_ Hf]. rewrite Hf. exact Hrefs.
Qed.

Lemma consistent_start : forall st req now lo o spot,
  consistent st ->
  ObjectId (StartBookingRequest.lot_id req) = Some lo ->
  ObjectId (StartBookingRequest.spot_id req) = Some o ->
  List.find (has_id o) (parkingspot_docs st) = Some spot ->
  ParkingSpot.is_occupied (fields spot) = false ->
  consistent (started_store st o req now).
Proof.
  intros st req now lo o spot [Hnd Hsb Hbb Hrefs] Hlo Ho Hfind Hfree.
  constructor; cbn [started_store parkingspot_docs booking_docs next_id].
  - rewrite map_id_update_first. exact Hnd.
  - apply ids_below_update_first.
    apply ids_below_weaken with (n := next_id st); [lia | exact Hsb].
  - intros d Hin. apply in_app_or in Hin. destruct Hin as [Hin|[<-|[]]].
    + specialize (Hbb d Hin). lia.
    + cbn [_id]. lia.
  - intros o'. specialize (Hrefs o'). unfold active_refs, occupied in *.
    cbn [started_store parkingspot_docs booking_docs].
    rewrite filter_app, length_app. cbn [filter].
    unfold references at 2. cbn [fields new_booking Booking.status Booking.spot_id].
    rewrite Ho. cbn [String.eqb Ascii.eqb Bool.eqb andb].
    destruct (N.eq_dec o o') as [<-|Hne].
    + rewrite find_update_first_same, Hfind. cbn [option_map fields
        ParkingSpot.set_is_occupied ParkingSpot.is_occupied].
      rewrite Hfind, Hfree in Hrefs. unfold ObjectId.eqb. rewrite N.eqb_refl.
      cbn [List.length]. lia.
    + rewrite find_update_first_other by congruence.
      unfold ObjectId.eqb. apply N.eqb_neq in Hne. rewrite Hne.
      cbn [List.length]. lia.
Qed.

Lemma consistent_end : forall st o b now,
  consistent st ->
  List.find (has_id o) (booking_docs st) = Some b ->
  Booking.status (fields b) = "active"%string ->
  consistent (ended_store st o (fields b) now).
Proof.
  intros st o b now [Hnd Hsb Hbb Hrefs] Hfind Hact.
  assert (Hcount : forall o',
    (List.length (filter (references o')
       (update_first o (Booking.set_status_end_time "completed" now) (booking_docs st)))
     + (if references o' b then 1 else 0) = active_refs st o')%nat).
  { intros o'. unfold active_refs.
    rewrite (count_update_first _ (references o') o _ _ b Hfind).
    assert (Hdone : references o'
              (Doc (_id b) (Booking.set_status_end_time "completed" now (fields b)))
            = false) by reflexivity.
    rewrite Hdone. lia. }
  constructor; cbn [ended_store parkingspot_docs booking_docs next_id].
  - destruct (ObjectId (Booking.spot_id (fields b)));
      [rewrite map_id_update_first|]; exact Hnd.
  - destruct (ObjectId (Booking.spot_id (fields b)));
      [apply ids_below_update_first|]; exact Hsb.
  - apply ids_below_update_first. exact Hbb.
  - intros o'. specialize (Hcount o'). specialize (Hrefs o').
    unfold active_refs at 1. unfold occupied in *.
    cbn [ended_store parkingspot_docs booking_docs].
    unfold references at 2 in Hcount. rewrite Hact in Hcount.
    cbn [String.eqb Ascii.eqb Bool.eqb andb] in Hcount.
    destruct (ObjectId (Booking.spot_id (fields b))) as [so|].
    + destruct (N.eq_dec so o') as [<-|Hne].
      * unfold ObjectId.eqb in Hcount. rewrite N.eqb_refl in Hcount.
        rewrite find_update_first_same.
        destruct (List.find (has_id so) (parkingspot_docs st)) as [s|];
          cbn [option_map fields ParkingSpot.set_is_occupied ParkingSpot.is_occupied].
        -- destruct (ParkingSpot.is_occupied (fields s)); lia.
        -- lia.
      * rewrite find_update_first_other by congruence.
        unfold ObjectId.eqb in Hcount. apply N.eqb_neq in Hne.
        rewrite Hne in Hcount. lia.
    + lia.
Qed.

Lemma consistent_step : forall st st',
  consistent st -> store_step st st' -> consistent st'.
Proof.
  intros st st' Hc Hstep.
  destruct Hstep as [|Hl|req now lo o spot Hlo Ho Hf Hfree|o b now Hf Hact].
  - exact Hc.
  - apply consistent_seed. exact Hc.
  - eapply consistent_start; eauto.
  - apply consistent_end; assumption.
Qed.

Lemma find_in_nodup : forall A (l : list (document A)) d,
  NoDup (map (@_id A) l) -> In d l -> List.find (has_id (_id d)) l = Some d.
Proof.
  intros A l d; induction l as [|x l IH]; intros Hnd Hin; [destruct Hin|].
  simpl in Hnd. inversion Hnd; subst. simpl.
  destruct Hin as [->|Hin].
  - unfold has_id, ObjectId.eqb. rewrite N.eqb_refl. reflexivity.
  - destruct (has_id (_id d) x) eqn:E; [|apply IH; assumption].
    apply has_id_true in E. elim H1. rewrite E. apply in_map. exact Hin.
Qed.

(** C5. In every state reached from the empty store by [seed], [start]
    and [end] requests served one after the other, a spot is flagged occupied
    exactly when one active booking references it, and no spot is referenced
    by two active bookings. *)
Theorem occupied_iff_one_active_booking : forall env st,
  reachable env ->
  db env = Some st ->
  (forall d, In d (parkingspot_docs st) ->
     (ParkingSpot.is_occupied (fields d) = true <-> active_refs st (_id d) = 1%nat))
  /\ (forall o, (active_refs st o <= 1)%nat)
  /\ (forall o b1 b2,
        In b1 (booking_docs st) -> In b2 (booking_docs st) ->
        references o b1 = true -> references o b2 = true -> b1 = b2).
Proof.
  intros env st Hreach Hdb.
  destruct (reachable_invariant consistent consistent_empty consistent_step env Hreach)
    as [st' [Hdb' [_ Hc]]].
  rewrite Hdb in Hdb'. inversion Hdb'; subst st'. clear Hdb'.
  destruct Hc as [Hnd Hsb Hbb Hrefs].
  assert (Hle : forall o, (active_refs st o <= 1)%nat).
  { intros o. rewrite Hrefs. destruct (occupied st o); lia. }
  split; [|split].
  - intros d Hin. rewrite Hrefs. unfold occupied.
    rewrite (find_in_nodup _ _ d Hnd Hin).
    destruct (ParkingSpot.is_occupied (fields d)); split; congruence.
  - exact Hle.
  - intros o b1 b2 H1 H2 R1 R2. specialize (Hle o). unfold active_refs in Hle.
    assert (F1 : In b1 (filter (references o) (booking_docs st)))
      by (apply filter_In; auto).
    assert (F2 : In b2 (filter (references o) (booking_docs st)))
      by (apply filter_In; auto).
    destruct (filter (references o) (booking_docs st)) as [|x [|y l]];
      simpl in *; [tauto | | lia].
    destruct F1 as [<-|[]]. destruct F2 as [<-|[]]. reflexivity.
Qed.

Lemma occupied_iff_one_active_booking_witness :
  ParkingSpot.is_occupied (ParkingSpot.Build demo_lot_id "5" "accessible" true) = true
  <-> active_refs booked_store 5%N = 1%nat.
Proof.
  apply (proj1 (occupied_iff_one_active_booking booked_env booked_store
                  booked_env_reachable eq_refl)
           (Doc 5%N (ParkingSpot.Build demo_lot_id "5" "accessible" true))).
  vm_compute. auto 10.
Defined.

(* ================================================================== *)
(** * Listing lots *)

Lemma list_lots_loop_run : forall env st lots results,
  db env = Some st ->
  list_lots_loop lots results env
  = (Ok (results ++ map (availability st) lots), env).
Proof.
  intros env st lots; induction lots as [|lot rest IH]; intros results Hdb.
  - simpl. unfold ret. rewrite app_nil_r. reflexivity.
  - cbn [list_lots_loop]. unfold bind at 1. unfold count_documents at 1.
    rewrite Hdb. cbn [docs]. rewrite IH by exact Hdb.
    rewrite <- app_assoc. reflexivity.
Qed.

Lemma list_lots_run : forall env st,
  db env = Some st ->
  list_lots env = (Ok (map (availability st) (parkinglot_docs st)), env).
Proof.
  intros env st Hdb. unfold list_lots.
  unfold bind at 1. unfold require_db. rewrite Hdb.
  unfold bind at 1. unfold find at 1. rewrite Hdb. cbn [docs]. rewrite filter_all.
  apply (list_lots_loop_run env st (parkinglot_docs st) [] Hdb).
Qed.

(** X1. [list_lots] reads the store only and answers with one entry per
    lot, in enumeration order, under the lot's identifier; an entry's
    [available_spots] is never negative, and never more than the lot's
    [total_spots] when that is not negative. *)
Theorem list_lots_bounds : forall env st,
  db env = Some st ->
  exists entries,
    list_lots env = (Ok entries, env)
    /\ map LotWithAvailability.id entries
       = map (fun lot => ObjectId.str (_id lot)) (parkinglot_docs st)
    /\ forall e, In e entries ->
         0 <= LotWithAvailability.available_spots e
         /\ (0 <= LotWithAvailability.total_spots e ->
             LotWithAvailability.available_spots e
             <= LotWithAvailability.total_spots e).
Proof.
  intros env st Hdb. exists (map (availability st) (parkinglot_docs st)).
  split; [apply list_lots_run; exact Hdb|]. split.
  - rewrite map_map. reflexivity.
  - intros e Hin. apply in_map_iff in Hin. destruct Hin as [lot [<- _]].
    cbn [availability LotWithAvailability.available_spots
         LotWithAvailability.total_spots].
    unfold occupied_count. lia.
Qed.

Lemma list_lots_bounds_witness :
  exists entries,
    list_lots booked_env = (Ok entries, booked_env)
    /\ map LotWithAvailability.id entries = [demo_lot_id].
Proof.
  destruct (list_lots_bounds booked_env booked_store eq_refl)
    as [entries [Hrun [Hids _]]].
  exists entries. split; [exact Hrun | exact Hids].
Defined.

Lemma count_update_occupied : forall (p : document ParkingSpot.t -> bool) o b l,
  (forall i s, p (Doc i (ParkingSpot.set_is_occupied b s)) = p (Doc i s)) ->
  List.length (filter p (update_first o (ParkingSpot.set_is_occupied b) l))
  = List.length (filter p l).
Proof.
  intros p o b l Hp; induction l as [|d l IH]; [reflexivity|].
  simpl. destruct (has_id o d).
  - simpl. rewrite Hp. destruct d as [i s]; simpl. destruct (p (Doc i s)); reflexivity.
  - simpl. destruct (p d); simpl; rewrite IH; reflexivity.
Qed.

Lemma demo_spots_in_lot : forall lot_id ns o,
  filter (in_lot lot_id) (demo_spots lot_id o ns) = demo_spots lot_id o ns.
Proof.
  intros lot_id ns; induction ns as [|i ns IH]; intros o; [reflexivity|].
  simpl. unfold in_lot at 1. cbn [fields ParkingSpot.lot_id].
  rewrite String.eqb_refl. rewrite IH. reflexivity.
Qed.

Lemma demo_spots_length : forall lot_id ns o,
  List.length (demo_spots lot_id o ns) = List.length ns.
Proof.
  intros lot_id ns; induction ns as [|i ns IH]; intros o; simpl; congruence.
Qed.

Lemma lots_sized_step : forall st st',
  lots_sized st -> store_step st st' -> lots_sized st'.
Proof.
  intros st st' [Hbehind Hsized] Hstep.
  split; [eapply lots_behind_spots_step; eauto|].
  destruct Hstep as [|Hl|req now lo o spot _ _ _ _|o b now _ _].
  - exact Hsized.
  - assert (Hs : parkingspot_docs st = []).
    { destruct (parkingspot_docs st) as [|s l] eqn:E; [reflexivity|].
      exfalso. apply Hbehind; [rewrite E; discriminate | exact Hl]. }
    cbn [seeded_store parkinglot_docs parkingspot_docs]. rewrite Hl, Hs.
    intros lot [<-|[]]. cbn [app _id fields].
    rewrite demo_spots_in_lot, demo_spots_length. reflexivity.
  - cbn [started_store parkinglot_docs parkingspot_docs]. intros lot Hin.
    rewrite count_update_occupied by reflexivity. apply Hsized. exact Hin.
  - cbn [ended_store parkinglot_docs parkingspot_docs]. intros lot Hin.
    destruct (ObjectId (Booking.spot_id (fields b)));
      [rewrite count_update_occupied by reflexivity|]; apply Hsized; exact Hin.
Qed.

Lemma lots_sized_empty : lots_sized empty_store.
Proof. split; [intros H; elim H; reflexivity | intros lot []]. Qed.

Lemma in_lot_split : forall lot_id l,
  List.length (filter (in_lot lot_id) l)
  = (List.length (filter (occupied_in_lot lot_id) l)
     + List.length (filter (free_in_lot lot_id) l))%nat.
Proof.
  intros lot_id l; induction l as [|s l IH]; [reflexivity|].
  simpl. unfold in_lot at 1, occupied_in_lot at 1, free_in_lot at 1.
  destruct (ParkingSpot.lot_id (fields s) =? lot_id)%string;
    destruct (ParkingSpot.is_occupied (fields s)); simpl; lia.
Qed.

Lemma availability_sized : forall st lot,
  lots_sized st ->
  In lot (parkinglot_docs st) ->
  LotWithAvailability.total_spots (availability st lot)
  = free_count st lot + occupied_count st lot
  /\ LotWithAvailability.available_spots (availability st lot) = free_count st lot.
Proof.
  intros st lot [_ Hsized] Hin. specialize (Hsized lot Hin).
  cbn [availability LotWithAvailability.available_spots
       LotWithAvailability.total_spots].
  rewrite Hsized, in_lot_split. unfold free_count, occupied_count. lia.
Qed.

Lemma reachable_sized : forall env st,
  reachable env -> db env = Some st -> lots_sized st.
Proof.
  intros env st Hreach Hdb.
  destruct (reachable_invariant lots_sized lots_sized_empty lots_sized_step env Hreach)
    as [st' [Hdb' [_ Hs]]].
  rewrite Hdb in Hdb'. inversion Hdb'; subst st'. exact Hs.
Qed.

(** X2. In every state reached from the empty store, each entry of
    [list_lots] reports as [total_spots] the number of spots of the lot and as
    [available_spots] the number of its unoccupied spots. *)
Theorem list_lots_counts_free_spots : forall env st,
  reachable env ->
  db env = Some st ->
  list_lots env = (Ok (map (availability st) (parkinglot_docs st)), env)
  /\ forall lot, In lot (parkinglot_docs st) ->
       LotWithAvailability.total_spots (availability st lot)
       = free_count st lot + occupied_count st lot
       /\ LotWithAvailability.available_spots (availability st lot)
          = free_count st lot.
Proof.
  intros env st Hreach Hdb. split; [apply list_lots_run; exact Hdb|].
  intros lot Hin. apply availability_sized; [|exact Hin].
  apply (reachable_sized env st Hreach Hdb).
Qed.

Lemma list_lots_counts_free_spots_witness :
  LotWithAvailability.available_spots (availability booked_store (Doc 0%N demo_lot))
  = free_count booked_store (Doc 0%N demo_lot).
Proof.
  apply (proj2 (list_lots_counts_free_spots booked_env booked_store
                  booked_env_reachable eq_refl)).
  left. reflexivity.
Defined.

(** X3. In every reachable state, when every entry of [list_lots] shows no
    available spot, [recommend] answers 404 whatever the request: "No suitable
    spots found" if a lot exists, "No parking lots available" otherwise. *)
Theorem nothing_listed_nothing_recommended : forall libm env st req,
  reachable env ->
  db env = Some st ->
  (forall lot, In lot (parkinglot_docs st) ->
     LotWithAvailability.available_spots (availability st lot) = 0) ->
  status_of (fst (recommend_parking libm req env)) = 404
  /\ (parkinglot_docs st <> [] ->
      recommend_parking libm req env = (NoSuitableSpot, env))
  /\ (parkinglot_docs st = [] ->
      recommend_parking libm req env = (NoLotsAvailable, env)).
Proof.
  intros libm env st req Hreach Hdb Hzero.
  pose proof (fun lot Hin =>
                availability_sized st lot (reachable_sized env st Hreach Hdb) Hin)
    as Hfree.
  assert (Hnone : forall lot, In lot (parkinglot_docs st) -> candidates st req lot = []).
  { intros lot Hin. destruct (Hfree lot Hin) as [_ Ha]. rewrite (Hzero lot Hin) in Ha.
    unfold free_count in Ha.
    destruct (filter (free_in_lot (ObjectId.str (_id lot))) (parkingspot_docs st))
      as [|s l] eqn:E; [|simpl in Ha; lia].
    rewrite <- scan_spots. rewrite E. destruct (truthy _); reflexivity. }
  rewrite (recommend_parking_run libm env st req Hdb).
  destruct (parkinglot_docs st) as [|l ls] eqn:Hl.
  - repeat split; congruence.
  - rewrite (recommend_scan_skips libm env st req Hdb)
      by (intros lot0 Hin0; apply Hnone;
          first [exact Hin0 | rewrite Hl in Hin0; exact Hin0]).
    repeat split; congruence.
Qed.

Lemma full_env_reachable : reachable full_env.
Proof.
  exists (Seed :: map book_spot [1; 2; 3; 4; 5; 6; 7; 8; 9; 10; 11; 12]%N).
  vm_compute. reflexivity.
Qed.

Lemma full_env_db : db full_env = Some full_store.
Proof. vm_compute. reflexivity. Qed.

Lemma nothing_listed_nothing_recommended_witness :
  recommend_parking small_angle_libm (near_downtown None) full_env
  = (NoSuitableSpot, full_env).
Proof.
  refine (proj1 (proj2 (nothing_listed_nothing_recommended small_angle_libm full_env
                          full_store (near_downtown None)
                          full_env_reachable full_env_db _)) _).
  - intros lot Hin. vm_compute in Hin. destruct Hin as [<-|[]].
    vm_compute. reflexivity.
  - vm_compute. discriminate.
Defined.

(* ================================================================== *)
(** * Identifiers read back *)

Lemma hex_value_char : forall d, (d < 16)%N ->
  ObjectId.hex_value (ObjectId.hex_char d) = Some d.
Proof.
  intros d H. destruct d as [|p]; [reflexivity|].
  do 4 (destruct p as [p|p|]; try reflexivity; try lia).
Qed.

Lemma hex_char_not_space : forall d, (d < 16)%N ->
  ObjectId.is_space (ObjectId.hex_char d) = false.
Proof.
  intros d H. destruct d as [|p]; [reflexivity|].
  do 4 (destruct p as [p|p|]; try reflexivity; try lia).
Qed.

(** Reading back [2 * n] digits written by [hex_digits] yields [n] bytes. *)
Lemma fromhex_digits : forall n x s k v,
  ObjectId.fromhex (ObjectId.hex_digits (2 * n) x s) k v
  = ObjectId.fromhex s (n + k)
      (v * 256 ^ N.of_nat n + x mod 256 ^ N.of_nat n)%N.
Proof.
  induction n as [|n IH]; intros x s k v.
  - simpl. rewrite N.mod_1_r. f_equal. lia.
  - replace (2 * S n)%nat with (S (S (2 * n))) by lia.
    cbn [ObjectId.hex_digits]. rewrite IH. cbn [ObjectId.fromhex].
    assert (H16 : forall y, (y mod 16 < 16)%N) by (intros y; apply N.mod_lt; discriminate).
    rewrite (hex_char_not_space _ (H16 _)).
    rewrite (hex_value_char _ (H16 _)), (hex_value_char _ (H16 _)).
    replace (S (n + k)) with (S n + k)%nat by lia. f_equal.
    rewrite Nnat.Nat2N.inj_succ, N.pow_succ_r'.
    rewrite (N.Div0.mod_mul_r x 256 (256 ^ N.of_nat n)).
    change 256%N with (16 * 16)%N at 6.
    rewrite (N.Div0.mod_mul_r x 16 16), N.Div0.div_div.
    change (16 * 16)%N with 256%N. lia.
Qed.

Lemma hex_digits_length : forall n x s,
  String.length (ObjectId.hex_digits n x s) = (n + String.length s)%nat.
Proof.
  induction n as [|n IH]; intros x s; [reflexivity|].
  cbn [ObjectId.hex_digits]. rewrite IH. simpl. lia.
Qed.

(** A twelve-byte id is read back from its string. *)
Lemma ObjectId_str_small : forall o,
  (o < twelve_bytes)%N -> ObjectId (ObjectId.str o) = Some o.
Proof.
  intros o H. unfold ObjectId, ObjectId.of_str, ObjectId.str.
  unfold twelve_bytes in H. apply N.ltb_lt in H. rewrite H.
  rewrite hex_digits_length. cbn [String.length Nat.add Nat.eqb].
  change 24%nat with (2 * 12)%nat. rewrite fromhex_digits.
  cbn [ObjectId.fromhex Nat.add]. unfold ObjectId.of_bytes. cbn [Nat.eqb].
  f_equal. apply N.ltb_lt in H. rewrite N.mul_0_l, N.add_0_l.
  apply N.mod_small. exact H.
Qed.

(** The spaced id is accepted; it holds eight bytes and so differs from
    every twelve-byte id. *)
Lemma spaced_id_accepted :
  ObjectId spaced_id = Some (twelve_bytes + 256 ^ 8 + 5)%N
  /\ ObjectId.str (twelve_bytes + 256 ^ 8 + 5)%N = "0000000000000005"%string
  /\ ObjectId " 00 00 00 00 00 00 00 05" = ObjectId spaced_id
  /\ ObjectId "0000000000000000000000 5" = None.
Proof. vm_compute. repeat split; reflexivity. Qed.

(** Lots, too, carry identifiers assigned before the next one. *)
Lemma lot_ids_below_step : forall st st',
  store_step st st' ->
  ids_below (next_id st) (parkinglot_docs st) ->
  ids_below (next_id st') (parkinglot_docs st').
Proof.
  intros st st' Hstep H. destruct Hstep; cbn [seeded_store started_store ended_store
    parkinglot_docs next_id]; try exact H.
  - intros d Hin. apply in_app_or in Hin. destruct Hin as [Hin|[<-|[]]].
    + specialize (H d Hin). lia.
    + cbn [_id]. lia.
  - apply (ids_below_weaken _ _ (next_id st)); [lia | exact H].
Qed.

Lemma find_fresh : forall A (l : list (document A)) n,
  ids_below n l -> List.find (has_id n) l = None.
Proof.
  intros A l n H. destruct (List.find (has_id n) l) as [d|] eqn:E; [|reflexivity].
  apply find_has_id in E. destruct E as [Hid Hin]. specialize (H d Hin). lia.
Qed.

Lemma update_first_absent : forall A o (f : A -> A) (l : list (document A)),
  List.find (has_id o) l = None -> update_first o f l = l.
Proof.
  intros A o f l; induction l as [|d l IH]; intros H; [reflexivity|].
  simpl in *. destruct (has_id o d); [discriminate H|]. rewrite IH by exact H.
  reflexivity.
Qed.

Lemma update_first_app_fresh : forall A o (f : A -> A) (l : list (document A)) x,
  List.find (has_id o) l = None ->
  update_first o f (l ++ [Doc o x]) = l ++ [Doc o (f x)].
Proof.
  intros A o f l x; induction l as [|d l IH]; intros H.
  - simpl. unfold has_id, ObjectId.eqb. cbn [_id]. rewrite N.eqb_refl. reflexivity.
  - simpl in *. destruct (has_id o d); [discriminate H|]. rewrite IH by exact H.
    reflexivity.
Qed.

Lemma update_first_undo : forall o (l : list (document ParkingSpot.t)) spot,
  List.find (has_id o) l = Some spot ->
  ParkingSpot.is_occupied (fields spot) = false ->
  update_first o (ParkingSpot.set_is_occupied false)
    (update_first o (ParkingSpot.set_is_occupied true) l) = l.
Proof.
  intros o l spot; induction l as [|d l IH]; intros Hfind Hfree; [discriminate Hfind|].
  simpl in Hfind. simpl. destruct (has_id o d) eqn:E.
  - inversion Hfind; subst d. simpl. unfold has_id in *. cbn [_id]. rewrite E.
    destruct spot as [i [a b c occ]]. simpl in *. subst occ. reflexivity.
  - simpl. rewrite E. rewrite IH by assumption. reflexivity.
Qed.

Lemma start_booking_needs_bson : forall env st req now,
  db env = Some st ->
  ObjectId_imported env = false ->
  start_booking req now env = (HTTPException 500 "ObjectId not available", env).
Proof.
  intros env st req now Hdb Himp. unfold start_booking. unfold_ops.
  rewrite Hdb, Himp. reflexivity.
Qed.

Lemma start_booking_imported : forall env st req now,
  db env = Some st ->
  (is_ok (fst (start_booking req now env)) = true -> ObjectId_imported env = true)
  /\ (ObjectId_imported env = false ->
      is_ok (fst (start_booking req now env)) = false).
Proof.
  intros env st req now Hdb.
  destruct (ObjectId_imported env) eqn:Himp.
  - split; [reflexivity | discriminate].
  - rewrite (start_booking_needs_bson env st req now Hdb Himp).
    split; [discriminate | reflexivity].
Qed.

(* ================================================================== *)
(** * Outcomes of start and end *)

(** X4. With a configured database, [start] succeeds exactly when
    [ObjectId] is available and accepts both ids, and the spot exists and is
    unoccupied (whether the lot exists plays no part); when it fails it writes
    nothing, and the status is one of 400, 404, 409 and 500. *)
Theorem start_booking_succeeds_iff : forall env st req now,
  db env = Some st ->
  (is_ok (fst (start_booking req now env)) = true
   <-> ObjectId_imported env = true
       /\ ObjectId (StartBookingRequest.lot_id req) <> None
       /\ exists o spot,
            ObjectId (StartBookingRequest.spot_id req) = Some o
            /\ List.find (has_id o) (parkingspot_docs st) = Some spot
            /\ ParkingSpot.is_occupied (fields spot) = false)
  /\ (is_ok (fst (start_booking req now env)) = false ->
      snd (start_booking req now env) = env
      /\ In (status_of (fst (start_booking req now env))) [400; 404; 409; 500]).
Proof.
  intros env st req now Hdb.
  destruct (ObjectId_imported env) eqn:Himp.
  2:{ rewrite (start_booking_needs_bson env st req now Hdb Himp). simpl.
      split; [split; [discriminate | intros [H _]; discriminate H]|].
      intros _. split; [reflexivity | simpl; auto]. }
  destruct (ObjectId (StartBookingRequest.lot_id req)) as [lo|] eqn:Hlo.
  2:{ rewrite (start_booking_invalid_lot env st req now Hdb Himp Hlo). simpl.
      split; [split; [discriminate | intros [_ [H _]]; congruence]|].
      intros _. split; [reflexivity | simpl; auto]. }
  destruct (ObjectId (StartBookingRequest.spot_id req)) as [o|] eqn:Ho.
  2:{ assert (H : start_booking req now env = (InvalidSpot, env)).
      { unfold start_booking. unfold_ops. rewrite Hdb, Himp, Hlo, Hdb, Ho.
        reflexivity. }
      rewrite H. simpl.
      split; [split; [discriminate | intros [_ [_ [o [s [Ho' _]]]]]; discriminate Ho']|].
      intros _. split; [reflexivity | simpl; auto]. }
  destruct (List.find (has_id o) (parkingspot_docs st)) as [spot|] eqn:Hfind.
  2:{ assert (H : start_booking req now env = (SpotNotFound, env)).
      { unfold start_booking. unfold_ops. rewrite Hdb, Himp, Hlo, Hdb, Ho, Hdb.
        cbn [docs]. rewrite Hfind. reflexivity. }
      rewrite H. simpl.
      split; [split; [discriminate|]|].
      - intros [_ [_ [o' [s [Ho' [Hf _]]]]]]. inversion Ho'; subst o'. congruence.
      - intros _. split; [reflexivity | simpl; auto]. }
  destruct (ParkingSpot.is_occupied (fields spot)) eqn:Hocc.
  - rewrite (start_booking_occupied env st req now lo o spot Hdb Himp Hlo Ho Hfind Hocc).
    simpl. split; [split; [discriminate|]|].
    + intros [_ [_ [o' [s [Ho' [Hf Hfree]]]]]]. inversion Ho'; subst o'.
      rewrite Hfind in Hf. inversion Hf; subst s. congruence.
    + intros _. split; [reflexivity | simpl; auto].
  - rewrite (start_booking_ok env st req now lo o spot Hdb Himp Hlo Ho Hfind Hocc).
    simpl. split; [split; [|reflexivity] | discriminate].
    intros _. split; [reflexivity|]. split; [discriminate|].
    exists o, spot. auto.
Qed.

Lemma start_booking_succeeds_iff_witness :
  is_ok (fst (start_booking start_absent_lot noon demo_env)) = true
  /\ is_ok (fst (start_booking start_spaced_lot noon demo_env)) = true
  /\ is_ok (fst (start_booking start_spaced_spot noon demo_env)) = false
  /\ is_ok (fst (start_booking start_bad_lot noon demo_env)) = false.
Proof.
  split; [|split; [|split]].
  - apply (proj1 (start_booking_succeeds_iff demo_env demo_store start_absent_lot noon
                    eq_refl)).
    split; [reflexivity|]. split; [vm_compute; discriminate|].
    exists 5%N, (Doc 5%N (ParkingSpot.Build demo_lot_id "5" "accessible" false)).
    repeat split; reflexivity.
  - apply (proj1 (start_booking_succeeds_iff demo_env demo_store start_spaced_lot noon
                    eq_refl)).
    split; [reflexivity|]. split; [vm_compute; discriminate|].
    exists 5%N, (Doc 5%N (ParkingSpot.Build demo_lot_id "5" "accessible" false)).
    repeat split; reflexivity.
  - apply not_true_is_false. intros Hok.
    apply (proj1 (start_booking_succeeds_iff demo_env demo_store start_spaced_spot noon
                    eq_refl)) in Hok.
    destruct Hok as [_ [_ [o [spot [Ho [Hfind _]]]]]].
    vm_compute in Ho. inversion Ho; subst o. vm_compute in Hfind. discriminate Hfind.
  - apply not_true_is_false. intros Hok.
    apply (proj1 (start_booking_succeeds_iff demo_env demo_store start_bad_lot noon
                    eq_refl)) in Hok.
    destruct Hok as [_ [Hlot _]]. apply Hlot. reflexivity.
Defined.

(** X5. With a configured database, [end] succeeds exactly when the id
    is well-formed and names a booking whose status is "active"; when it fails
    it writes nothing, and the status is one of 400, 404, 409 and 500. *)
Theorem end_booking_succeeds_iff : forall env st req now0 now,
  db env = Some st ->
  (is_ok (fst (end_booking req now0 now env)) = true
   <-> ObjectId_imported env = true
       /\ exists o b,
            ObjectId (EndBookingRequest.booking_id req) = Some o
            /\ List.find (has_id o) (booking_docs st) = Some b
            /\ Booking.status (fields b) = "active"%string)
  /\ (is_ok (fst (end_booking req now0 now env)) = false ->
      snd (end_booking req now0 now env) = env
      /\ In (status_of (fst (end_booking req now0 now env))) [400; 404; 409; 500]).
Proof.
  intros env st req now0 now Hdb.
  destruct (ObjectId_imported env) eqn:Himp.
  2:{ assert (H : end_booking req now0 now env
                  = (HTTPException 500 "ObjectId not available", env)).
      { unfold end_booking. unfold_ops. rewrite Hdb, Himp. reflexivity. }
      rewrite H. simpl.
      split; [split; [discriminate | intros [H' _]; discriminate H']|].
      intros _. split; [reflexivity | simpl; auto]. }
  destruct (ObjectId (EndBookingRequest.booking_id req)) as [o|] eqn:Ho.
  2:{ assert (H : end_booking req now0 now env
                  = (HTTPException 400 "Invalid booking id", env)).
      { unfold end_booking. unfold_ops. rewrite Hdb, Himp, Ho. reflexivity. }
      rewrite H. simpl.
      split; [split; [discriminate | intros [_ [o [b [Ho' _]]]]; discriminate Ho']|].
      intros _. split; [reflexivity | simpl; auto]. }
  destruct (List.find (has_id o) (booking_docs st)) as [b|] eqn:Hfind.
  2:{ assert (H : end_booking req now0 now env
                  = (HTTPException 404 "Booking not found", env)).
      { unfold end_booking. unfold_ops. rewrite Hdb, Himp, Ho, Hdb.
        cbn [docs]. rewrite Hfind. reflexivity. }
      rewrite H. simpl. split; [split; [discriminate|]|].
      - intros [_ [o' [b [Ho' [Hf _]]]]]. inversion Ho'; subst o'. congruence.
      - intros _. split; [reflexivity | simpl; auto]. }
  destruct (string_dec (Booking.status (fields b)) "active") as [Hact|Hact].
  - rewrite (end_booking_ok env st req now0 now o b Hdb Himp Ho Hfind Hact).
    simpl. split; [split; [|reflexivity] | discriminate].
    intros _. split; [reflexivity|]. exists o, b. auto.
  - rewrite (end_booking_closed env st req now0 now o b Hdb Himp Ho Hfind Hact).
    simpl. split; [split; [discriminate|]|].
    + intros [_ [o' [b' [Ho' [Hf Ha]]]]]. inversion Ho'; subst o'.
      rewrite Hfind in Hf. inversion Hf; subst b'. contradiction.
    + intros _. split; [reflexivity | simpl; auto].
Qed.

Lemma end_booking_succeeds_iff_witness :
  is_ok (fst (end_booking end_first 0 (noon + one_hour) booked_env)) = true.
Proof.
  apply (proj1 (end_booking_succeeds_iff booked_env booked_store end_first 0
                  (noon + one_hour) eq_refl)).
  split; [reflexivity|].
  exists 13%N, (Doc 13%N (new_booking start_accessible noon)).
  repeat split; reflexivity.
Defined.

(* ================================================================== *)
(** * Handlers one after the other *)

(** X6. In a reachable state whose next identifier fits twelve bytes,
    after a successful [start] an [end] on the [booking_id] it returned
    succeeds: every spot is again as it was before the [start], the lots are
    untouched, the booking stays in the store as "completed" with [end_time]
    set, and the duration billed runs from the [start]'s clock reading. *)
Theorem start_then_end_restores : forall env st req now resp env1 now0 now',
  reachable env ->
  db env = Some st ->
  (next_id st < twelve_bytes)%N ->
  start_booking req now env = (Ok resp, env1) ->
  exists r st2,
    end_booking (EndBookingRequest.Build (BookingResponse.booking_id resp))
      now0 now' env1 = (Ok r, set_db st2 env)
    /\ parkinglot_docs st2 = parkinglot_docs st
    /\ parkingspot_docs st2 = parkingspot_docs st
    /\ booking_docs st2
       = booking_docs st
         ++ [Doc (next_id st)
               (Booking.set_status_end_time "completed" now' (new_booking req now))]
    /\ EndBookingResult.duration_minutes r
       = (total_seconds (datetime_sub now' now) / 60.0)%float.
Proof.
  intros env st req now resp env1 now0 now' Hreach Hdb Hsmall Hstart.
  destruct (reachable_invariant consistent consistent_empty consistent_step env Hreach)
    as [st' [Hdb' [Himp [_ _ Hbb _]]]].
  rewrite Hdb in Hdb'. inversion Hdb'; subst st'. clear Hdb'.
  destruct (start_booking_cases env st req now _ _ Hdb Hstart)
    as [[Hr _]|[lo [o [spot [Hlo [Ho [Hfind [Hfree [Hresp Henv]]]]]]]]];
    [discriminate Hr|].
  inversion Hresp; subst resp. subst env1. cbn [BookingResponse.booking_id].
  assert (Hnew : List.find (has_id (next_id st))
                   (booking_docs (started_store st o req now))
                 = Some (Doc (next_id st) (new_booking req now))).
  { cbn [started_store booking_docs]. rewrite find_app, (find_fresh _ _ _ Hbb).
    simpl. unfold has_id, ObjectId.eqb. cbn [_id]. rewrite N.eqb_refl. reflexivity. }
  rewrite (end_booking_ok (set_db (started_store st o req now) env)
             (started_store st o req now)
             (EndBookingRequest.Build (ObjectId.str (next_id st))) now0 now'
             (next_id st) (Doc (next_id st) (new_booking req now))
             eq_refl Himp (ObjectId_str_small _ Hsmall) Hnew eq_refl).
  eexists. eexists. split; [reflexivity|].
  cbn [ended_store started_store parkinglot_docs parkingspot_docs booking_docs
       fields new_booking Booking.spot_id].
  rewrite Ho. split; [reflexivity|]. split.
  - apply (update_first_undo o _ spot Hfind Hfree).
  - split; [apply update_first_app_fresh; apply find_fresh; exact Hbb | reflexivity].
Qed.

Lemma start_then_end_restores_witness :
  exists r st2,
    end_booking (EndBookingRequest.Build "00000000000000000000000d")
      0 (noon + one_hour) booked_env = (Ok r, set_db st2 demo_env)
    /\ parkingspot_docs st2 = parkingspot_docs demo_store.
Proof.
  destruct (start_then_end_restores demo_env demo_store start_accessible noon
              (BookingResponse.Build "00000000000000000000000d" "active")
              booked_env 0 (noon + one_hour)
              demo_env_reachable eq_refl eq_refl)
    as [r [st2 [Hrun [_ [Hspots _]]]]].
  - vm_compute. reflexivity.
  - exists r, st2. split; [exact Hrun | exact Hspots].
Defined.

(** X7. In a reachable state whose identifiers fit twelve bytes, the lot
    and spot a successful [recommend] returns can be booked at once: [start]
    with that [lot_id] and [spot_id] succeeds, whatever the plate and name. *)
Theorem recommended_spot_can_be_booked : forall libm env st req resp,
  reachable env ->
  db env = Some st ->
  (next_id st <= twelve_bytes)%N ->
  fst (recommend_parking libm req env) = Ok resp ->
  exists spot_id,
    RecommendationResponse.spot_id resp = Some spot_id
    /\ forall plate user now,
         is_ok (fst (start_booking
                       (StartBookingRequest.Build
                          (RecommendationResponse.lot_id resp) spot_id plate user)
                       now env)) = true.
Proof.
  intros libm env st req resp Hreach Hdb Hsmall Hrec.
  destruct (reachable_invariant consistent consistent_empty consistent_step env Hreach)
    as [st' [Hdb' [Himp [Hnd Hsb _ _]]]].
  rewrite Hdb in Hdb'. inversion Hdb'; subst st'. clear Hdb'.
  destruct (recommend_selected libm env st req resp Hdb Hrec)
    as [b [spot [Hb [Hfind ->]]]].
  apply find_some in Hfind. destruct Hfind as [Hin Hq].
  exists (ObjectId.str (_id spot)). split; [reflexivity|].
  intros plate user now. cbn [response_for RecommendationResponse.lot_id].
  unfold qualifies in Hq. apply andb_prop in Hq. destruct Hq as [Hq _].
  apply andb_prop in Hq. destruct Hq as [_ Hfree]. apply negb_true_iff in Hfree.
  destruct (reachable_invariant
              (fun s => ids_below (next_id s) (parkinglot_docs s))
              (fun d (Hd : In d []) => match Hd with end)
              (fun s s' H Hs => lot_ids_below_step s s' Hs H) env Hreach)
    as [st' [Hdb' [_ Hlb]]].
  rewrite Hdb in Hdb'. inversion Hdb'; subst st'. clear Hdb'.
  rewrite (start_booking_ok env st _ now (_id b) (_id spot) spot Hdb Himp).
  - reflexivity.
  - apply ObjectId_str_small. specialize (Hlb b Hb). lia.
  - apply ObjectId_str_small. specialize (Hsb spot Hin). lia.
  - apply find_in_nodup; assumption.
  - exact Hfree.
Qed.

Lemma recommended_spot_can_be_booked_witness :
  exists spot_id,
    Some "000000000000000000000001"%string = Some spot_id
    /\ forall plate user now,
         is_ok (fst (start_booking
                       (StartBookingRequest.Build demo_lot_id spot_id plate user)
                       now demo_env)) = true.
Proof.
  refine (recommended_spot_can_be_booked small_angle_libm demo_env demo_store
            (near_downtown (Some ""%string))
            {| RecommendationResponse.lot_id := demo_lot_id;
               RecommendationResponse.lot_name := "Downtown Central";
               RecommendationResponse.spot_id := Some "000000000000000000000001"%string;
               RecommendationResponse.spot_number := Some "1"%string;
               RecommendationResponse.reason :=
                 "Closest lot with available matching spots" |}
            demo_env_reachable eq_refl _ (f_equal fst near_downtown_unfiltered)).
  vm_compute. discriminate.
Defined.

(** X8. A successful [recommend] names a stored lot by identifier and
    name, and a stored spot that is unoccupied and whose [lot_id] is the
    returned [lot_id]; [spot_id] and [spot_number] are never absent. *)
Theorem recommended_spot_is_in_lot : forall libm env st req resp,
  db env = Some st ->
  fst (recommend_parking libm req env) = Ok resp ->
  exists lot spot,
    In lot (parkinglot_docs st)
    /\ In spot (parkingspot_docs st)
    /\ RecommendationResponse.lot_id resp = ObjectId.str (_id lot)
    /\ RecommendationResponse.lot_name resp = ParkingLot.name (fields lot)
    /\ RecommendationResponse.spot_id resp = Some (ObjectId.str (_id spot))
    /\ RecommendationResponse.spot_number resp
       = Some (ParkingSpot.spot_number (fields spot))
    /\ ParkingSpot.lot_id (fields spot) = RecommendationResponse.lot_id resp
    /\ ParkingSpot.is_occupied (fields spot) = false.
Proof.
  intros libm env st req resp Hdb Hrec.
  destruct (recommend_selected libm env st req resp Hdb Hrec)
    as [b [spot [Hb [Hfind ->]]]].
  apply find_some in Hfind. destruct Hfind as [Hin Hq].
  unfold qualifies in Hq. apply andb_prop in Hq. destruct Hq as [Hq _].
  apply andb_prop in Hq. destruct Hq as [Hlot Hfree].
  apply String.eqb_eq in Hlot. apply negb_true_iff in Hfree.
  exists b, spot. cbn [response_for RecommendationResponse.lot_id
    RecommendationResponse.lot_name RecommendationResponse.spot_id
    RecommendationResponse.spot_number option_map]. auto 10.
Qed.

Lemma recommended_spot_is_in_lot_witness :
  exists lot spot,
    In lot (parkinglot_docs demo_store)
    /\ In spot (parkingspot_docs demo_store)
    /\ demo_lot_id = ObjectId.str (_id lot)
    /\ "Downtown Central"%string = ParkingLot.name (fields lot)
    /\ Some "000000000000000000000001"%string = Some (ObjectId.str (_id spot))
    /\ Some "1"%string = Some (ParkingSpot.spot_number (fields spot))
    /\ ParkingSpot.lot_id (fields spot) = demo_lot_id
    /\ ParkingSpot.is_occupied (fields spot) = false.
Proof.
  exact (recommended_spot_is_in_lot small_angle_libm demo_env demo_store
           (near_downtown (Some ""%string)) _ eq_refl
           (f_equal fst near_downtown_unfiltered)).
Defined.

(** X9. [recommend] and [list_lots] never write: whatever the request and
    the environment, configured or not, they leave it as it was. *)
Theorem reads_do_not_write : forall libm req env,
  snd (recommend_parking libm req env) = env
  /\ snd (list_lots env) = env.
Proof.
  intros libm req env. destruct (db env) as [st|] eqn:Hdb.
  - split; [apply (recommend_read_only libm env st req Hdb)|].
    rewrite (list_lots_run env st Hdb). reflexivity.
  - split.
    + unfold recommend_parking, bind, require_db. rewrite Hdb. reflexivity.
    + unfold list_lots, bind, require_db. rewrite Hdb. reflexivity.
Qed.

(* ================================================================== *)
(** * The life of a booking *)

Lemma bookings_shaped_step : forall st st',
  bookings_shaped st -> store_step st st' -> bookings_shaped st'.
Proof.
  intros st st' Hs Hstep.
  destruct Hstep as [|_|req now lo o spot Hlo Ho _ _|o b now Hf Hact];
    unfold bookings_shaped.
  - exact Hs.
  - exact Hs.
  - cbn [started_store booking_docs]. intros d Hin.
    apply in_app_or in Hin. destruct Hin as [Hin|[<-|[]]]; [apply Hs; exact Hin|].
    cbn [fields]. unfold booking_shape, new_booking. cbn.
    rewrite Hlo, Ho. repeat split; try discriminate. left. split; reflexivity.
  - cbn [ended_store booking_docs]. intros d Hin.
    apply in_update_first in Hin.
    destruct Hin as [Hin|[d0 [Hin ->]]]; [apply Hs; exact Hin|].
    destruct (Hs d0 Hin) as [Hst [Hl [Hsp _]]].
    cbn [fields]. unfold booking_shape. cbn.
    repeat split; try assumption. right. split; [reflexivity | discriminate].
Qed.

(** X10. In every reachable state each stored booking has a start time
    and lot and spot references that [ObjectId] accepts, and is either
    "active" with no end time or "completed" with one; no booking is ever
    "cancelled". *)
Theorem booking_lifecycle : forall env st d,
  reachable env ->
  db env = Some st ->
  In d (booking_docs st) ->
  Booking.start_time (fields d) <> None
  /\ ObjectId (Booking.lot_id (fields d)) <> None
  /\ ObjectId (Booking.spot_id (fields d)) <> None
  /\ ((Booking.status (fields d) = "active"%string
       /\ Booking.end_time (fields d) = None)
      \/ (Booking.status (fields d) = "completed"%string
          /\ Booking.end_time (fields d) <> None))
  /\ Booking.status (fields d) <> "cancelled"%string.
Proof.
  intros env st d Hreach Hdb Hin.
  destruct (reachable_invariant bookings_shaped) with (env := env)
    as [st' [Hdb' [_ Hs]]].
  - intros d0 [].
  - exact bookings_shaped_step.
  - exact Hreach.
  - rewrite Hdb in Hdb'. inversion Hdb'; subst st'.
    destruct (Hs d Hin) as [H1 [H2 [H3 H4]]].
    repeat split; try assumption.
    destruct H4 as [[H _]|[H _]]; rewrite H; discriminate.
Qed.

Lemma spaced_env_reachable : reachable spaced_env.
Proof. exists [Seed; Start start_spaced_lot noon]. vm_compute. reflexivity. Qed.

Lemma booking_lifecycle_witness :
  Booking.status (new_booking start_accessible noon) <> "cancelled"%string
  /\ Booking.lot_id (new_booking start_spaced_lot noon) = spaced_id
  /\ ObjectId (Booking.lot_id (new_booking start_spaced_lot noon)) <> None.
Proof.
  split; [|split; [reflexivity|]].
  - apply (booking_lifecycle booked_env booked_store
             (Doc 13%N (new_booking start_accessible noon))
             booked_env_reachable eq_refl).
    left. reflexivity.
  - refine (proj1 (proj2 (booking_lifecycle spaced_env
                            (started_store demo_store 5%N start_spaced_lot noon)
                            (Doc 13%N (new_booking start_spaced_lot noon))
                            spaced_env_reachable _ _))).
    + vm_compute. reflexivity.
    + left. reflexivity.
Defined.

(* ================================================================== *)
(** * Availability after a booking *)

Lemma free_count_started : forall st o req now spot lot,
  List.find (has_id o) (parkingspot_docs st) = Some spot ->
  ParkingSpot.is_occupied (fields spot) = false ->
  free_count (started_store st o req now) lot
  = free_count st lot
    - (if (ParkingSpot.lot_id (fields spot) =? ObjectId.str (_id lot))%string
       then 1 else 0).
Proof.
  intros st o req now spot lot Hfind Hfree. unfold free_count.
  cbn [started_store parkingspot_docs].
  pose proof (count_update_first _ (free_in_lot (ObjectId.str (_id lot))) o
                (ParkingSpot.set_is_occupied true) _ spot Hfind) as H.
  assert (H1 : free_in_lot (ObjectId.str (_id lot)) spot
               = (ParkingSpot.lot_id (fields spot) =? ObjectId.str (_id lot))%string).
  { unfold free_in_lot. rewrite Hfree. apply andb_true_r. }
  assert (H2 : free_in_lot (ObjectId.str (_id lot))
                 (Doc (_id spot) (ParkingSpot.set_is_occupied true (fields spot)))
               = false).
  { unfold free_in_lot. cbn. apply andb_false_r. }
  rewrite H1, H2 in H.
  destruct (ParkingSpot.lot_id (fields spot) =? ObjectId.str (_id lot))%string; lia.
Qed.

Lemma city_lots_sized : lots_sized city_store.
Proof.
  split; [intros _; discriminate|].
  intros lot [<-|[<-|[<-|[]]]]; vm_compute; reflexivity.
Qed.

(** X11. In a store, of any number of lots, where every lot's
    [total_spots] is the number of its spots, a successful [start] lowers by
    one the [available_spots] that [list_lots] shows for the lot the booked
    spot names, and leaves the figure of every other lot as it was. *)
Theorem start_takes_one_available_spot : forall env st req now resp env1,
  db env = Some st ->
  lots_sized st ->
  start_booking req now env = (Ok resp, env1) ->
  exists st1 o spot,
    db env1 = Some st1
    /\ ObjectId (StartBookingRequest.spot_id req) = Some o
    /\ List.find (has_id o) (parkingspot_docs st) = Some spot
    /\ list_lots env1 = (Ok (map (availability st1) (parkinglot_docs st)), env1)
    /\ forall lot, In lot (parkinglot_docs st) ->
         LotWithAvailability.available_spots (availability st1 lot)
         = LotWithAvailability.available_spots (availability st lot)
           - (if (ParkingSpot.lot_id (fields spot) =? ObjectId.str (_id lot))%string
              then 1 else 0).
Proof.
  intros env st req now resp env1 Hdb Hsized Hstart.
  destruct (start_booking_cases env st req now _ _ Hdb Hstart)
    as [[Hr _]|[lo [o [spot [Hlo [Ho [Hfind [Hfree [_ Henv]]]]]]]]];
    [discriminate Hr|].
  subst env1. exists (started_store st o req now), o, spot.
  split; [reflexivity|]. split; [exact Ho|]. split; [exact Hfind|].
  split; [apply (list_lots_run _ (started_store st o req now)); reflexivity|].
  intros lot Hin.
  assert (Hsized1 : lots_sized (started_store st o req now)).
  { eapply lots_sized_step; [exact Hsized|]. eapply step_start; eauto. }
  destruct (availability_sized _ lot Hsized1 Hin) as [_ ->].
  destruct (availability_sized _ lot Hsized Hin) as [_ ->].
  apply free_count_started; assumption.
Qed.

Lemma start_takes_one_available_spot_witness :
  lots_sized city_store
  /\ map LotWithAvailability.available_spots
       (map (availability city_store) (parkinglot_docs city_store))
     = [12; 12; 12]
  /\ exists st1,
       db (snd (start_booking (start_ev "000000000000000000000001") noon city_env))
       = Some st1
       /\ map LotWithAvailability.available_spots
            (map (availability st1) (parkinglot_docs city_store))
          = [12; 11; 12].
Proof.
  split; [exact city_lots_sized|]. split; [vm_compute; reflexivity|].
  destruct (start_takes_one_available_spot city_env city_store
              (start_ev "000000000000000000000001") noon
              (BookingResponse.Build "000000000000000000000035" "active")
              (snd (start_booking (start_ev "000000000000000000000001") noon city_env))
              eq_refl city_lots_sized)
    as [st1 [o [spot [Hdb1 [Ho [Hfind [_ Hall]]]]]]].
  - vm_compute. reflexivity.
  - exists st1. split; [exact Hdb1|].
    vm_compute in Ho. inversion Ho; subst o.
    vm_compute in Hfind. inversion Hfind; subst spot.
    cbn [city_store parkinglot_docs map].
    rewrite (Hall (Doc 20%N oakland_lot) (or_introl eq_refl)).
    rewrite (Hall (Doc 0%N demo_lot) (or_intror (or_introl eq_refl))).
    rewrite (Hall (Doc 40%N annex_lot) (or_intror (or_intror (or_introl eq_refl)))).
    vm_compute. reflexivity.
Defined.

(* ================================================================== *)
(** * Distance from a point to itself *)

Lemma sub_self : forall x : float, is_finite x = true -> (x - x)%float = 0%float.
Proof.
  intros x H. apply Prim2SF_inj. rewrite sub_spec. unfold is_finite in H.
  change (Prim2SF 0) with (S754_zero false).
  destruct (Prim2SF x) as [s|s| |s m e]; try discriminate H.
  - destruct s; reflexivity.
  - unfold SF64sub, SFsub. cbn zeta. rewrite Z.sub_diag. reflexivity.
Qed.

Lemma binary_round_aux_sign : forall m e l,
  binary_round_aux prec emax false m e l = S754_zero false
  \/ (exists m' e', binary_round_aux prec emax false m e l = S754_finite false m' e')
  \/ binary_round_aux prec emax false m e l = S754_infinity false
  \/ binary_round_aux prec emax false m e l = S754_nan.
Proof.
  intros m e l. unfold binary_round_aux.
  destruct (shr_fexp prec emax m e l) as [mrs' e'].
  destruct (shr_fexp prec emax _ e' loc_Exact) as [mrs'' e''].
  destruct (shr_m mrs'') as [|p|p]; [left; reflexivity | | right; right; right; reflexivity].
  destruct (Z.leb e'' (Z.sub emax prec)); [right; left; eauto | right; right; left; reflexivity].
Qed.

Lemma square_times_zero : forall c : float,
  (c * c <? infinity)%float = true -> (c * c * 0)%float = 0%float.
Proof.
  intros c H. apply Prim2SF_inj. rewrite ltb_spec in H. rewrite mul_spec.
  rewrite mul_spec in *. change (Prim2SF infinity) with (S754_infinity false) in H.
  change (Prim2SF 0) with (S754_zero false).
  destruct (Prim2SF c) as [s|s| |s m e].
  - destruct s; reflexivity.
  - destruct s; discriminate H.
  - discriminate H.
  - unfold SF64mul in *. cbn [SFmul] in *. rewrite Bool.xorb_nilpotent in *.
    destruct (binary_round_aux_sign (Zpos (Pos.mul m m)) (Z.add e e) loc_Exact)
      as [E|[[m' [e' E]]|[E|E]]]; rewrite E in *;
      first [reflexivity | discriminate H].
Qed.

(** X12. With a C library that is exact at the origin and whose cosine at
    the point's latitude has a square that does not overflow, the distance
    from a point with finite coordinates to itself is zero. *)
Theorem haversine_same_point : forall libm lat lon c,
  exact_at_origin libm ->
  cos libm (radians lat) = Some c ->
  (c * c <? infinity)%float = true ->
  is_finite lat = true ->
  is_finite lon = true ->
  haversine libm lat lon lat lon = Some 0%float.
Proof.
  intros libm lat lon c [Hsin [Hpow Hatan]] Hc Hsq Hlat Hlon. unfold haversine.
  rewrite (sub_self lat Hlat), (sub_self lon Hlon).
  change (radians 0 / 2)%float with 0%float.
  rewrite Hsin. cbn [obind]. rewrite Hpow. cbn [obind].
  rewrite Hc. cbn [obind].
  rewrite (square_times_zero c Hsq).
  change (0 + 0)%float with 0%float.
  change (math_sqrt 0) with (Some 0%float).
  change (math_sqrt (1 - 0)) with (Some 1%float). cbn [obind].
  rewrite Hatan. reflexivity.
Qed.

Lemma haversine_same_point_witness :
  cos sample_libm (radians 37.7749) = Some 0x1.94b2617b74a5ep-1%float
  /\ haversine sample_libm 37.7749 (-122.4194) 37.7749 (-122.4194) = Some 0%float.
Proof.
  split; [vm_compute; reflexivity|].
  apply (haversine_same_point sample_libm 37.7749 (-122.4194) 0x1.94b2617b74a5ep-1).
  - repeat split; reflexivity.
  - vm_compute. reflexivity.
  - reflexivity.
  - reflexivity.
  - reflexivity.
Defined.

(* ================================================================== *)
(** * What a booking leaves behind *)

(** X13. Right after a successful [start], a second [start] on the same
    spot is refused with 409 "Spot already occupied" and writes nothing,
    whatever well-formed lot id, plate and name it carries. *)
Theorem second_start_conflicts : forall env st req now resp env1 req' now',
  db env = Some st ->
  start_booking req now env = (Ok resp, env1) ->
  ObjectId (StartBookingRequest.spot_id req')
  = ObjectId (StartBookingRequest.spot_id req) ->
  ObjectId (StartBookingRequest.lot_id req') <> None ->
  start_booking req' now' env1 = (SpotConflict, env1).
Proof.
  intros env st req now resp env1 req' now' Hdb Hstart Hsame Hlot.
  destruct (start_booking_imported env st req now Hdb) as [Himp Hfail].
  destruct (start_booking_cases env st req now _ _ Hdb Hstart)
    as [[Hr _]|[lo [o [spot [Hlo [Ho [Hfind [Hfree [_ Henv]]]]]]]]];
    [discriminate Hr|].
  subst env1.
  destruct (ObjectId (StartBookingRequest.lot_id req')) as [lo'|] eqn:Hlo';
    [|congruence].
  apply (start_booking_occupied _ (started_store st o req now) req' now' lo' o
           (Doc (_id spot) (ParkingSpot.set_is_occupied true (fields spot)))).
  - reflexivity.
  - cbn [ObjectId_imported set_db]. apply Himp. rewrite Hstart. reflexivity.
  - exact Hlo'.
  - rewrite Hsame. exact Ho.
  - cbn [started_store parkingspot_docs]. rewrite find_update_first_same, Hfind.
    reflexivity.
  - reflexivity.
Qed.

Lemma second_start_conflicts_witness :
  start_booking start_absent_lot (noon + 1) booked_env = (SpotConflict, booked_env).
Proof.
  refine (second_start_conflicts demo_env demo_store start_accessible noon
            (BookingResponse.Build "00000000000000000000000d" "active") booked_env
            start_absent_lot (noon + 1) eq_refl _ eq_refl _).
  - vm_compute. reflexivity.
  - vm_compute. discriminate.
Defined.

(** X14. A successful [end] marks the booking "completed" with [end_time]
    the clock reading, leaves every other booking and every lot as they were,
    and releases the spot the booking names on a best-effort basis: that spot
    becomes unoccupied, no other spot changes, and a [spot_id] that is
    malformed or names no spot changes no spot and does not prevent billing. *)
Theorem end_booking_effect : forall env st req now0 now o b,
  db env = Some st ->
  ObjectId_imported env = true ->
  ObjectId (EndBookingRequest.booking_id req) = Some o ->
  List.find (has_id o) (booking_docs st) = Some b ->
  Booking.status (fields b) = "active"%string ->
  exists r st2,
    end_booking req now0 now env = (Ok r, set_db st2 env)
    /\ parkinglot_docs st2 = parkinglot_docs st
    /\ List.find (has_id o) (booking_docs st2)
       = Some (Doc (_id b) (Booking.set_status_end_time "completed" now (fields b)))
    /\ (forall o', o' <> o ->
          List.find (has_id o') (booking_docs st2)
          = List.find (has_id o') (booking_docs st))
    /\ (forall so spot,
          ObjectId (Booking.spot_id (fields b)) = Some so ->
          List.find (has_id so) (parkingspot_docs st) = Some spot ->
          List.find (has_id so) (parkingspot_docs st2)
          = Some (Doc (_id spot) (ParkingSpot.set_is_occupied false (fields spot)))
          /\ forall o', o' <> so ->
               List.find (has_id o') (parkingspot_docs st2)
               = List.find (has_id o') (parkingspot_docs st))
    /\ (ObjectId (Booking.spot_id (fields b)) = None
        \/ (exists so, ObjectId (Booking.spot_id (fields b)) = Some so
                       /\ List.find (has_id so) (parkingspot_docs st) = None) ->
        parkingspot_docs st2 = parkingspot_docs st).
Proof.
  intros env st req now0 now o b Hdb Himp Ho Hfind Hact.
  exists (bill st (fields b) now0 now), (ended_store st o (fields b) now).
  split; [apply end_booking_ok; assumption|].
  split; [reflexivity|].
  cbn [ended_store booking_docs parkingspot_docs].
  split; [rewrite find_update_first_same, Hfind; reflexivity|].
  split; [intros o' Hne; apply find_update_first_other; exact Hne|].
  split.
  - intros so spot Hso Hspot. rewrite Hso. split.
    + rewrite find_update_first_same, Hspot. reflexivity.
    + intros o' Hne. apply find_update_first_other. exact Hne.
  - intros [Hnone|[so [Hso Hspot]]].
    + rewrite Hnone. reflexivity.
    + rewrite Hso. apply update_first_absent. exact Hspot.
Qed.

Lemma end_booking_effect_witness :
  exists r st2,
    end_booking end_first 0 (noon + one_hour) booked_env = (Ok r, set_db st2 booked_env)
    /\ List.find (has_id 5%N) (parkingspot_docs st2)
       = Some (Doc 5%N (ParkingSpot.Build demo_lot_id "5" "accessible" false)).
Proof.
  destruct (end_booking_effect booked_env booked_store end_first 0 (noon + one_hour)
              13%N (Doc 13%N (new_booking start_accessible noon))
              eq_refl eq_refl eq_refl eq_refl eq_refl)
    as [r [st2 [Hrun [_ [_ [_ [Hspot _]]]]]]].
  exists r, st2. split; [exact Hrun|].
  exact (proj1 (Hspot 5%N (Doc 5%N (ParkingSpot.Build demo_lot_id "5" "accessible" true))
                  eq_refl eq_refl)).
Defined.
